(** * bunnynet-go: pagination and response handling

    A shallow embedding of [common/pagination.go], [common/types.go], the
    error values of package [common], [internal/request.go] and the response
    parsers of package [internal], with the properties of the page iterator,
    the pagination value types, the request builder and the response
    decoder. *)

From Stdlib Require Import ZArith Lia Bool List String Ascii.
From Stdlib Require Import QArith.QArith_base QArith.Qround.
From stdpp Require Import base option list strings gmap pretty.

Local Open Scope Z_scope.
Set Warnings "-register-all".

(** * Part I: the program *)

(** ** Go's [int]

    [int] is 64 bits wide on the platforms the module is built for.  A value
    is a [Z] in [[MinInt, MaxInt]]; arithmetic wraps around silently. *)
Module GoInt.

Definition MaxInt : Z := 2 ^ 63 - 1.
Definition MinInt : Z := - 2 ^ 63.

Definition in_range (x : Z) : Prop := MinInt <= x <= MaxInt.

(** Two's complement reduction of a mathematical integer. *)
Definition wrap (x : Z) : Z := (x + 2 ^ 63) mod 2 ^ 64 - 2 ^ 63.

(** [x + y] *)
Definition add (x y : Z) : Z := wrap (x + y).

(** [x++] *)
Definition incr (x : Z) : Z := add x 1.

(** [x / y] for [y <> 0]: truncated towards zero. *)
Definition quo (x y : Z) : Z := wrap (Z.quot x y).

(** [x % y] for [y <> 0]: the sign follows the dividend. *)
Definition rem (x y : Z) : Z := Z.rem x y.

End GoInt.

(** ** [common/pagination.go]: request-side cursor *)

Definition DefaultPage : Z := 1.
Definition DefaultPerPage : Z := 100.
Definition MaxPerPage : Z := 1000.

Record Pagination : Type := mkPagination {
  Page : Z;
  PerPage : Z
}.

Definition NewPagination : Pagination :=
  {| Page := DefaultPage; PerPage := DefaultPerPage |}.

(** The setters mutate the receiver and return it; the receiver is threaded
    through as a value. *)
Definition WithPage (p : Pagination) (page : Z) : Pagination :=
  let page := if page <? 1 then DefaultPage else page in
  {| Page := page; PerPage := PerPage p |}.

Definition WithPerPage (p : Pagination) (perPage : Z) : Pagination :=
  let perPage := if perPage <? 1 then DefaultPerPage else perPage in
  let perPage := if perPage >? MaxPerPage then MaxPerPage else perPage in
  {| Page := Page p; PerPage := perPage |}.

(** ** [common/pagination.go]: response-side page information *)

Record PageInfo : Type := mkPageInfo {
  pi_CurrentPage : Z;
  pi_TotalItems : Z;
  pi_HasMoreItems : bool
}.

Definition TotalPages (p : PageInfo) (perPage : Z) : Z :=
  if perPage <=? 0 then 0
  else
    let totalPages := GoInt.quo (pi_TotalItems p) perPage in
    if GoInt.rem (pi_TotalItems p) perPage >? 0
    then GoInt.incr totalPages
    else totalPages.

Definition NextPage (p : PageInfo) : Z :=
  if negb (pi_HasMoreItems p) then 0 else GoInt.add (pi_CurrentPage p) 1.

Definition PreviousPage (p : PageInfo) : Z :=
  if pi_CurrentPage p <=? 1 then 0 else GoInt.add (pi_CurrentPage p) (-1).

Definition IsFirstPage (p : PageInfo) : bool := pi_CurrentPage p <=? 1.

Definition IsLastPage (p : PageInfo) : bool := negb (pi_HasMoreItems p).

(** The ceiling of the rational [a / b], for [0 < b]. *)
Definition ceil_ratio (a b : Z) : Z := Qceiling (a # Z.to_pos b).

(** ** Package [common]: error values ([ErrorResponse], [ClientError])

    A Go [error] is an interface value; [option error] is such a value, with
    [None] for [nil].  The constructors are the dynamic types an error of
    this module can have. *)
Inductive error : Type :=
| ErrorString (s : string)
    (** [errors.New(s)], and [fmt.Errorf] with no [%w] verb *)
| ErrorResponse (ErrorKey Field Message : string) (StatusCode : Z)
    (** [*ErrorResponse]: a failure reported by the server *)
| ClientError (Message : string) (Err : option error)
    (** [*ClientError]: a failure in the client itself *)
| LibraryError (pkg msg : string)
    (** an error made by the standard library (io, json, url, net/http) *).

Definition is_ClientError (e : error) : bool :=
  match e with ClientError _ _ => true | _ => false end.

Definition is_ErrorResponse (e : error) : bool :=
  match e with ErrorResponse _ _ _ _ => true | _ => false end.

Definition NewClientError (message : string) (err : option error) : error :=
  ClientError message err.

(** [%d] of an [int]. *)
Definition fmt_d (n : Z) : string := pretty n.

(** The [Error()] method of each dynamic type. *)
Fixpoint error_Error (e : error) : string :=
  match e with
  | ErrorString s => s
  | ErrorResponse key field message status =>
      "[" +:+ fmt_d status +:+ "] " +:+ key +:+ ": " +:+ message
          +:+ " (" +:+ field +:+ ")"
  | ClientError message (Some cause) => message +:+ ": " +:+ error_Error cause
  | ClientError message None => message
  | LibraryError _ msg => msg
  end.

(** [Unwrap] of a [*ClientError]. *)
Definition ClientError_Unwrap (e : error) : option error :=
  match e with ClientError _ cause => cause | _ => None end.

(** ** [common/types.go] *)

Record PaginatedResponse (T : Type) : Type := mkPaginatedResponse {
  Items : list T;
  CurrentPage : Z;
  TotalItems : Z;
  HasMoreItems : bool
}.
Arguments mkPaginatedResponse {T} _ _ _ _.
Arguments Items {T} _.
Arguments CurrentPage {T} _.
Arguments TotalItems {T} _.
Arguments HasMoreItems {T} _.

Definition PageInfoFromResponse {T} (response : option (PaginatedResponse T))
  : option PageInfo :=
  match response with
  | None => None
  | Some r =>
      Some {| pi_CurrentPage := CurrentPage r;
              pi_TotalItems := TotalItems r;
              pi_HasMoreItems := HasMoreItems r |}
  end.

(** ** [common/pagination.go]: the page iterator

    The fetch function is a closure over state of its own (a server, a
    counter, a table of pages).  That state is the world [W]: a call takes
    the world, the page and the page size, and gives the world after the
    call and the two results, either of which may be [nil].

    The machine state holds the iterator, the world, and a log of the calls
    made to the fetch function with their results.  A run of a method either
    returns a value or panics; the state after it is kept in both cases.

    A stored response is kept as a value: the iterator reads it again only
    after a fetch that succeeded, with no call of the fetch function in
    between, or not at all (after an error [Next] stops at the error, after
    [Reset] the response is gone).  The fetch function acts on the world
    only; it does not reach into the iterator that calls it. *)

Inductive outcome (A : Type) : Type :=
| Returns (a : A)
| Panics.
Arguments Returns {A} _.
Arguments Panics {A}.

Section Iterator.

Context {T W : Type}.

Definition fetch_result : Type :=
  (option (PaginatedResponse T) * option error)%type.

Definition fetch_fn : Type := W -> Z -> Z -> W * fetch_result.

Record PageIterator : Type := mkPageIterator {
  client : fetch_fn;
  pagination : Pagination;
  currentResponse : option (PaginatedResponse T);
  err : option error
}.

Record call : Type := mkCall {
  call_page : Z;
  call_perPage : Z;
  call_result : fetch_result
}.

Record machine : Type := mkMachine {
  iter : PageIterator;
  world : W;
  calls : list call
}.

Definition NewPageIterator (client : fetch_fn) (page perPage : Z)
  : PageIterator :=
  {| client := client;
     pagination := WithPerPage (WithPage NewPagination page) perPage;
     currentResponse := None;
     err := None |}.

Definition start (client : fetch_fn) (page perPage : Z) (w : W) : machine :=
  {| iter := NewPageIterator client page perPage; world := w; calls := [] |}.

(** [i.client(i.pagination.Page, i.pagination.PerPage)] *)
Definition call_client (m : machine) : fetch_result * machine :=
  let i := iter m in
  let page := Page (pagination i) in
  let perPage := PerPage (pagination i) in
  let '(w', res) := client i (world m) page perPage in
  (res, {| iter := i; world := w';
           calls := calls m ++ [mkCall page perPage res] |}).

Definition set_iter (m : machine) (i : PageIterator) : machine :=
  {| iter := i; world := world m; calls := calls m |}.

(** Assignments to the fields of the iterator. *)
Definition with_err (i : PageIterator) (e : option error) : PageIterator :=
  {| client := client i; pagination := pagination i;
     currentResponse := currentResponse i; err := e |}.

Definition with_currentResponse (i : PageIterator)
    (response : option (PaginatedResponse T)) : PageIterator :=
  {| client := client i; pagination := pagination i;
     currentResponse := response; err := err i |}.

Definition with_Page (i : PageIterator) (page : Z) : PageIterator :=
  {| client := client i;
     pagination := {| Page := page; PerPage := PerPage (pagination i) |};
     currentResponse := currentResponse i; err := err i |}.

Definition Next (m : machine) : outcome bool * machine :=
  let i := iter m in
  match err i with
  | Some _ => (Returns false, m)
  | None =>
      if match currentResponse i with
         | Some r => negb (HasMoreItems r)
         | None => false
         end
      then (Returns false, m)
      else
        let '(res, m1) := call_client m in
        match res with
        | (_, Some e) => (Returns false, set_iter m1 (with_err i (Some e)))
        | (response, None) =>
            let i := with_currentResponse i response in
            let i := with_Page i (GoInt.incr (Page (pagination i))) in
            match response with
            | Some r =>
                (Returns (0 <? Z.of_nat (length (Items r))), set_iter m1 i)
            | None =>
                (* [response.Items] on a nil pointer *)
                (Panics, set_iter m1 i)
            end
        end
  end.

Definition IterItems (m : machine) : list T :=
  match currentResponse (iter m) with
  | None => []
  | Some r => Items r
  end.

Definition Error (m : machine) : option error := err (iter m).

Definition IterPageInfo (m : machine) : option PageInfo :=
  PageInfoFromResponse (currentResponse (iter m)).

Definition Reset (m : machine) : machine :=
  let i := with_Page (iter m) DefaultPage in
  let i := with_currentResponse i None in
  let i := with_err i None in
  set_iter m i.

(** [for i.Next() { allItems = append(allItems, i.Items()...) }].
    The loop need not end; [None] is a run cut short by the fuel. *)
Fixpoint AllItems_loop (fuel : nat) (allItems : list T) (m : machine)
  : option (outcome (list T) * machine) :=
  match fuel with
  | O => None
  | S fuel =>
      match Next m with
      | (Panics, m') => Some (Panics, m')
      | (Returns true, m') => AllItems_loop fuel (allItems ++ IterItems m') m'
      | (Returns false, m') => Some (Returns allItems, m')
      end
  end.

Definition AllItems (fuel : nat) (m : machine)
  : option (outcome (list T * option error) * machine) :=
  match AllItems_loop fuel [] (Reset m) with
  | None => None
  | Some (Panics, m') => Some (Panics, m')
  | Some (Returns allItems, m') =>
      match Error m' with
      | Some e => Some (Returns ([], Some e), m')
      | None => Some (Returns (allItems, None), m')
      end
  end.

End Iterator.

Arguments PageIterator : clear implicits.
Arguments machine : clear implicits.
Arguments fetch_fn : clear implicits.
Arguments fetch_result : clear implicits.
Arguments call : clear implicits.

(** ** Runs of the iterator *)

Section IteratorRuns.

Context {T W : Type}.

(** [n] calls of [Next] in a row: the result and the state after each. *)
Fixpoint Next_run (n : nat) (m : machine T W)
  : list (outcome bool * machine T W) :=
  match n with
  | O => []
  | S n => let r := Next m in r :: Next_run n (snd r)
  end.

Inductive iter_op : Type := OpNext | OpReset.

Definition run_op (m : machine T W) (o : iter_op) : machine T W :=
  match o with
  | OpNext => snd (Next m)
  | OpReset => Reset m
  end.

Definition run_ops (ops : list iter_op) (m : machine T W) : machine T W :=
  fold_left run_op ops m.

Definition cursor (m : machine T W) : Pagination := pagination (iter m).

(** The state in which [Next] goes on to call the fetch function. *)
Definition non_terminal (m : machine T W) : Prop :=
  err (iter m) = None /\
  forall r, currentResponse (iter m) = Some r -> HasMoreItems r = true.



(** What the fetch function answers to [n] calls in a row, asked for the
    pages [page], [page + 1], ... at one page size. *)
Fixpoint fetch_seq (c : fetch_fn T W) (n : nat) (w : W) (page perPage : Z)
  : list (fetch_result T) :=
  match n with
  | O => []
  | S n =>
      let '(w', res) := c w page perPage in
      res :: fetch_seq c n w' (GoInt.incr page) perPage
  end.

(** What a walk over a sequence of answers hands to the caller.  An error
    ends the walk with nothing; a page without items ends it; a page whose
    [HasMoreItems] is false is the last one taken.  [None]: the answers run
    out before the walk ends. *)
Fixpoint walk_result (answers : list (fetch_result T))
  : option (outcome (list T * option error)) :=
  match answers with
  | [] => None
  | (_, Some e) :: _ => Some (Returns ([], Some e))
  | (None, None) :: _ => Some Panics
  | (Some r, None) :: rest =>
      match Items r with
      | [] => Some (Returns ([], None))
      | _ :: _ =>
          if HasMoreItems r then
            match walk_result rest with
            | Some (Returns (items, None)) =>
                Some (Returns (Items r ++ items, None))
            | other => other
            end
          else Some (Returns (Items r, None))
      end
  end.

(** The collection a table of pages holds: the items of all its pages. *)
Definition remote_collection (pages : list (PaginatedResponse T)) : list T :=
  concat (map Items pages).

(** A table as a server hands it out: every page but the last announces more
    items, the last one does not. *)
Fixpoint well_formed_pages (pages : list (PaginatedResponse T)) : bool :=
  match pages with
  | [] => false
  | [r] => negb (HasMoreItems r)
  | r :: rest => HasMoreItems r && well_formed_pages rest
  end.

Definition answers_of (pages : list (PaginatedResponse T))
  : list (fetch_result T) :=
  map (fun r => (Some r, None)) pages.

(** No page that announces more items is empty. *)
Definition no_gap (pages : list (PaginatedResponse T)) : Prop :=
  Forall (fun r => HasMoreItems r = true -> Items r <> []) pages.

End IteratorRuns.

(** ** A fetch function over a table of pages

    The fetch function of the iterator's test: page [k] is the [k]-th entry
    of a table, any other page is an error.  It has no state of its own. *)
Definition clientFn {T} (mockPages : list (PaginatedResponse T))
  : fetch_fn T unit :=
  fun w page perPage =>
    if (page <? 1) || (page >? Z.of_nat (length mockPages))
    then (w, (None, Some (ErrorString "page out of range")))
    else (w, (mockPages !! Z.to_nat (page - 1), None)).


(** ** [ParseErrorResponse], [ParseResponse], [ParsePaginatedResponse],
       [DoRequest]: decoding a response

    Of an [*http.Response] the decoder uses the status code and the body.
    The body is a stream: reading it to the end gives the bytes read and
    possibly a read error. *)

Record body : Type := mkBody {
  body_data : string;
  body_read_err : option error
}.

Record Response : Type := mkResponse {
  StatusCode : Z;
  Body : body
}.

Definition StatusNoContent : Z := 204.

(** [io.ReadAll(resp.Body)] *)
Definition io_ReadAll (b : body) : string * option error :=
  (body_data b, body_read_err b).

Definition with_status (resp : Response) (status : Z) : Response :=
  {| StatusCode := status; Body := Body resp |}.

Section Decoder.

(** [json.NewDecoder(resp.Body).Decode(errorResponse)] on a fresh
    [ErrorResponse]: the three fields read from the body ([StatusCode] is
    tagged [json:"-"] and is not touched), or [None] when reading or decoding
    fails. *)
Variable json_Decode_ErrorResponse : body -> option (string * string * string).

(** The type a success body is decoded into, and [json.Unmarshal(body, v)]:
    the value behind [v] afterwards, and the error if any. *)
Variable V : Type.
Variable json_Unmarshal : string -> V -> V * option error.

Definition ParseErrorResponse (resp : Response) : option error :=
  if (StatusCode resp >=? 200) && (StatusCode resp <? 300) then None
  else
    match json_Decode_ErrorResponse (Body resp) with
    | None =>
        Some (ErrorString
                ("bunnynet API error: status code " +:+ fmt_d (StatusCode resp)))
    | Some (key, field, message) =>
        Some (ErrorResponse key field message (StatusCode resp))
    end.

(** [ParseResponse(resp, v)]: [v] is [None] for a nil interface, else the
    value the pointer leads to.  The result is the error and the value behind
    [v] after the call. *)
Definition ParseResponse (resp : Response) (v : option V)
  : option error * option V :=
  if StatusCode resp =? StatusNoContent then (None, v)
  else
    match v with
    | None => (None, None)
    | Some x =>
        if StatusCode resp >=? 400 then (ParseErrorResponse resp, Some x)
        else
          match io_ReadAll (Body resp) with
          | (_, Some e) =>
              (Some (NewClientError "failed to read response body" (Some e)),
               Some x)
          | (data, None) =>
              match json_Unmarshal data x with
              | (x', Some e) =>
                  (Some (NewClientError "failed to parse response body"
                           (Some e)),
                   Some x')
              | (x', None) => (None, Some x')
              end
          end
    end.

(** [ParsePaginatedResponse(resp, v)], for [V] a [PaginatedResponse]. *)
Definition ParsePaginatedResponse (resp : Response) (x : V)
  : option error * V :=
  match io_ReadAll (Body resp) with
  | (_, Some e) =>
      (Some (NewClientError "failed to read response body" (Some e)), x)
  | (data, None) =>
      match json_Unmarshal data x with
      | (x', Some e) =>
          (Some (NewClientError "failed to parse paginated response" (Some e)),
           x')
      | (x', None) => (None, x')
      end
  end.

(** [internal/request.go]: [client.Do(req)] gives a response or an error. *)
Variable Req : Type.
Variable http_Do : Req -> Response + error.

Definition DoRequest (req : Req) : option Response * option error :=
  match http_Do req with
  | inr e => (None, Some (NewClientError "failed to send request" (Some e)))
  | inl resp =>
      if StatusCode resp >=? 400
      then (Some resp, ParseErrorResponse resp)
      else (Some resp, None)
  end.

(** The exchange of a paginated listing ([CountryService.ListPaginated]
    from [DoRequest] on): [zero] is the zero value the response is decoded
    into. *)
Definition ListPaginated_exchange (zero : V) (req : Req)
  : outcome (option V * option error) :=
  match DoRequest req with
  | (_, Some e) => Returns (None, Some e)
  | (None, None) => Panics  (* [resp.Body] on a nil pointer *)
  | (Some resp, None) =>
      match ParsePaginatedResponse resp zero with
      | (Some e, _) => Returns (None, Some e)
      | (None, x) => Returns (Some x, None)
      end
  end.

End Decoder.

(** ** [internal/request.go]: building a request *)

(** *** Header keys, as [net/http] stores them *)

Definition byte_in (lo hi : N) (c : ascii) : bool :=
  ((lo <=? N_of_ascii c) && (N_of_ascii c <=? hi))%N.

Definition is_lower (c : ascii) : bool := byte_in 97 122 c.
Definition is_upper (c : ascii) : bool := byte_in 65 90 c.
Definition is_digit (c : ascii) : bool := byte_in 48 57 c.

Definition to_upper (c : ascii) : ascii := ascii_of_N (N_of_ascii c - 32).
Definition to_lower (c : ascii) : ascii := ascii_of_N (N_of_ascii c + 32).

(** The bytes of an HTTP token. *)
Definition validHeaderFieldByte (c : ascii) : bool :=
  is_lower c || is_upper c || is_digit c ||
  existsb (Ascii.eqb c) (list_ascii_of_string "!#$%&'*+-.^_`|~").

Fixpoint canonical_from (upper : bool) (s : string) : string :=
  match s with
  | EmptyString => EmptyString
  | String c rest =>
      let c' :=
        if upper && is_lower c then to_upper c
        else if negb upper && is_upper c then to_lower c
        else c in
      String c' (canonical_from (Ascii.eqb c' "-") rest)
  end.

(** [textproto.CanonicalMIMEHeaderKey]: the first letter and every letter
    after a hyphen in upper case, the others in lower case; a key with a byte
    that is not a token byte is left as it is. *)
Definition CanonicalMIMEHeaderKey (s : string) : string :=
  if forallb validHeaderFieldByte (list_ascii_of_string s)
  then canonical_from true s
  else s.

(** [http.Header]: the values of each canonical key. *)
Abbreviation Header := (gmap string (list string)).

Definition Header_Set (h : Header) (key value : string) : Header :=
  <[CanonicalMIMEHeaderKey key := [value]]> h.

Definition Header_Values (h : Header) (key : string) : option (list string) :=
  h !! CanonicalMIMEHeaderKey key.

Definition Header_Get (h : Header) (key : string) : string :=
  match Header_Values h key with
  | Some (v :: _) => v
  | _ => ""
  end.

(** *** The request *)

Inductive result (A : Type) : Type :=
| Ok (a : A)
| Fail (e : error).
Arguments Ok {A} _.
Arguments Fail {A} _.

Definition MethodPost : string := "POST".
Definition MethodPut : string := "PUT".
Definition MethodPatch : string := "PATCH".

(** [validMethod] of [net/http]: a non-empty token. *)
Definition validMethod (method : string) : bool :=
  negb (String.eqb method "") &&
  forallb validHeaderFieldByte (list_ascii_of_string method).

Section Request.

(** Parsed URLs are taken as they come from [net/url]. *)
Variable URL : Type.
Variable url_Parse : string -> result URL.
Variable url_ResolveReference : URL -> string -> URL.
Variable url_String : URL -> string.

(** The type of request bodies and [json.Marshal] on it. *)
Variable B : Type.
Variable json_Marshal : B -> result string.

Record Request : Type := mkRequest {
  req_Method : string;
  req_URL : URL;
  req_Header : Header;
  req_Body : option string
}.

(** [json.NewEncoder(buf).Encode(body)]: the encoding and a newline. *)
Definition json_Encode (body : B) : result string :=
  match json_Marshal body with
  | Ok s => Ok (s +:+ String "010"%char EmptyString)
  | Fail e => Fail e
  end.

(** [http.NewRequest(method, url, body)]: the request has no header yet. *)
Definition http_NewRequest (method url : string) (payload : option string)
  : result Request :=
  let method := if String.eqb method "" then "GET" else method in
  if negb (validMethod method)
  then Fail (LibraryError "net/http" "invalid method")
  else
    match url_Parse url with
    | Fail e => Fail e
    | Ok u =>
        Ok {| req_Method := method; req_URL := u;
              req_Header := ∅; req_Body := payload |}
    end.

Definition sends_body (method : string) (body : option B) : bool :=
  match body with
  | None => false
  | Some _ =>
      String.eqb method MethodPost || String.eqb method MethodPut
      || String.eqb method MethodPatch
  end.

Definition set_header (req : Request) (key value : string) : Request :=
  {| req_Method := req_Method req; req_URL := req_URL req;
     req_Header := Header_Set (req_Header req) key value;
     req_Body := req_Body req |}.

(** [body] is [None] for a nil interface. *)
Definition NewRequest (method baseURL path : string) (body : option B)
    (apiKey userAgent : string) : result Request :=
  match url_Parse baseURL with
  | Fail e => Fail (NewClientError "failed to parse base URL" (Some e))
  | Ok u =>
      let u := url_ResolveReference u path in
      match
        (match body with
         | Some b =>
             if sends_body method body
             then match json_Encode b with
                  | Ok s => Ok (Some s)
                  | Fail e => Fail e
                  end
             else Ok None
         | None => Ok None
         end)
      with
      | Fail e => Fail (NewClientError "failed to encode request body" (Some e))
      | Ok buf =>
          match http_NewRequest method (url_String u) buf with
          | Fail e => Fail (NewClientError "failed to create request" (Some e))
          | Ok req =>
              let req := set_header req "Accept" "application/json" in
              let req :=
                if sends_body method body
                then set_header req "Content-Type" "application/json"
                else req in
              let req :=
                if negb (String.eqb apiKey "")
                then set_header req "AccessKey" apiKey
                else req in
              let req :=
                if negb (String.eqb userAgent "")
                then set_header req "User-Agent" userAgent
                else req in
              Ok req
          end
      end
  end.

(** The body is not nil and the method is one of POST, PUT, PATCH. *)
Definition carries_json (method : string) (body : option B) : Prop :=
  body <> None /\ (method = "POST" \/ method = "PUT" \/ method = "PATCH").

(** The header [NewRequest] builds on the empty one. *)
Definition built_header (method : string) (body : option B)
    (apiKey userAgent : string) : Header :=
  let h := Header_Set ∅ "Accept" "application/json" in
  let h := if sends_body method body
           then Header_Set h "Content-Type" "application/json" else h in
  let h := if negb (String.eqb apiKey "")
           then Header_Set h "AccessKey" apiKey else h in
  if negb (String.eqb userAgent "")
  then Header_Set h "User-Agent" userAgent else h.

End Request.

Arguments req_Method {URL} _.
Arguments req_URL {URL} _.
Arguments req_Header {URL} _.
Arguments req_Body {URL} _.
Arguments carries_json {B} _ _.
Arguments built_header {B} _ _ _ _.

(** ** Data: the iterator's test ([TestPageIterator]), and inputs the
       theorems are run on *)

Record mockItem : Type := mkMockItem {
  ID : Z;
  Name : string
}.

Definition mock_page1 : PaginatedResponse mockItem :=
  mkPaginatedResponse [mkMockItem 1 "Item 1"; mkMockItem 2 "Item 2"] 1 5 true.

Definition mock_page2 : PaginatedResponse mockItem :=
  mkPaginatedResponse [mkMockItem 3 "Item 3"; mkMockItem 4 "Item 4"] 2 5 true.

Definition mock_page3 : PaginatedResponse mockItem :=
  mkPaginatedResponse [mkMockItem 5 "Item 5"] 3 5 false.

Definition mockPages : list (PaginatedResponse mockItem) :=
  [mock_page1; mock_page2; mock_page3].

Definition mock_start : machine mockItem unit :=
  start (clientFn mockPages) 1 2 tt.

(** The fetch function of the test's [errorIterator]. *)
Definition failing_client : fetch_fn mockItem unit :=
  fun w page perPage => (w, (None, Some (ErrorString "test error"))).

Definition mock_failed : machine mockItem unit :=
  snd (Next (start failing_client 1 10 tt)).



(** Status 500 with a body that is not JSON, and a decoder that decodes no
    body. *)
Definition resp_500 : Response :=
  {| StatusCode := 500;
     Body := {| body_data := "Internal Server Error";
                body_read_err := None |} |}.

Definition decodes_nothing : body -> option (string * string * string) :=
  fun _ => None.

(** ** A request, as data

    URLs kept as text: parsing accepts every text and resolving a path
    appends it; a body that is its own JSON text. *)
Definition text_Parse : string -> result string := fun s => Ok s.
Definition text_ResolveReference : string -> string -> string :=
  fun u path => u +:+ path.
Definition text_String : string -> string := fun u => u.
Definition text_Marshal : string -> result string := fun b => Ok b.

Definition create_key_request : Request string :=
  {| req_Method := "POST";
     req_URL := "https://api.bunny.net/apikey";
     req_Header :=
       built_header "POST" (Some "{}") "test-api-key" "bunnynet-go/1.0.0";
     req_Body := Some ("{}" +:+ String "010"%char EmptyString) |}.

(** ** More on runs of the iterator *)

(** The calls a walk logs: the answers, each with the page it was asked for,
    from [page] on, at one page size. *)
Fixpoint calls_of {T} (page perPage : Z) (answers : list (fetch_result T))
  : list (call T) :=
  match answers with
  | [] => []
  | a :: rest => mkCall page perPage a :: calls_of (GoInt.incr page) perPage rest
  end.

(** The number of [Next] among the calls of a run. *)
Fixpoint count_Next (ops : list iter_op) : nat :=
  match ops with
  | [] => O
  | OpNext :: ops' => S (count_Next ops')
  | OpReset :: ops' => count_Next ops'
  end.

(** Two states with the same iterator and the same world: the call logs may
    differ. *)
Definition same_but_log {T W} (m1 m2 : machine T W) : Prop :=
  iter m1 = iter m2 /\ world m1 = world m2.

(** ** [common/pagination.go]: the cursor as query parameters *)

(** [strconv.Itoa] *)
Definition strconv_Itoa (n : Z) : string := pretty n.

(** [ToQueryParams] of a [*Pagination]; [None] is the nil pointer. *)
Definition Pagination_ToQueryParams (p : option Pagination)
  : gmap string string :=
  match p with
  | None => ∅
  | Some p =>
      let params : gmap string string := ∅ in
      let params :=
        if Page p >? 0 then <["page" := strconv_Itoa (Page p)]> params
        else params in
      let params :=
        if PerPage p >? 0 then <["perPage" := strconv_Itoa (PerPage p)]> params
        else params in
      params
  end.

(** ** [internal/request.go]: adding query parameters

    [url.Values]: the values of each key, in the order they were added. *)
Abbreviation Values := (gmap string (list string)).

(** [v[key] = append(v[key], value)] *)
Definition Values_Add (q : Values) (key value : string) : Values :=
  <[key := default [] (q !! key) ++ [value]]> q.

(** The [params] argument: nil, a value with a [ToQueryParams] method (given
    by the map the method returns), or a struct with [url] tags. *)
Inductive query_params (S : Type) : Type :=
| ParamsNil
| ParamsRequest (m : gmap string string)
| ParamsStruct (s : S).
Arguments ParamsNil {S}.
Arguments ParamsRequest {S} _.
Arguments ParamsStruct {S} _.

Section AddQuery.

(** Of a URL the function uses [Query()] and the assignment to [RawQuery];
    [Encode] of the values is taken from [net/url]. *)
Variable URL : Type.
Variable url_Query : URL -> Values.
Variable url_set_RawQuery : URL -> string -> URL.
Variable Values_Encode : Values -> string.

(** [query.Values] of go-querystring, on a struct with [url] tags. *)
Variable S : Type.
Variable query_Values : S -> result Values.

(** The order in which [range] goes over a map: any order of its entries. *)
Variable range : forall A : Type, gmap string A -> list (string * A).

Definition set_RawQuery (req : Request URL) (raw : string) : Request URL :=
  {| req_Method := req_Method req;
     req_URL := url_set_RawQuery (req_URL req) raw;
     req_Header := req_Header req;
     req_Body := req_Body req |}.

(** [for k, v := range m { q.Add(k, v) }] *)
Definition add_each (q : Values) (m : gmap string string) : Values :=
  foldl (fun q kv => Values_Add q (fst kv) (snd kv)) q (range string m).

(** [for k, vs := range v { for _, v := range vs { q.Add(k, v) } }] *)
Definition add_all (q : Values) (v : Values) : Values :=
  foldl (fun q kvs => foldl (fun q x => Values_Add q (fst kvs) x) q (snd kvs))
        q (range (list string) v).

(** The request is changed in place; the result is the error and the
    request after the call. *)
Definition AddQueryParams (req : Request URL) (params : query_params S)
  : option error * Request URL :=
  match params with
  | ParamsNil => (None, req)
  | ParamsRequest m =>
      let q := add_each (url_Query (req_URL req)) m in
      (None, set_RawQuery req (Values_Encode q))
  | ParamsStruct s =>
      match query_Values s with
      | Fail e =>
          (Some (NewClientError "failed to encode query parameters" (Some e)),
           req)
      | Ok v =>
          let q := add_all (url_Query (req_URL req)) v in
          (None, set_RawQuery req (Values_Encode q))
      end
  end.

End AddQuery.

(** ** A call for one value ([CountryService.Get] from [DoRequest] on) *)

Section GetExchange.

Variable json_Decode_ErrorResponse : body -> option (string * string * string).
Variable V : Type.
Variable json_Unmarshal : string -> V -> V * option error.
Variable Req : Type.
Variable http_Do : Req -> Response + error.


End GetExchange.

(** ** Listing all pages ([CountryService.ListAll],
       [PullZoneService.ListAll], [DNSZoneService.ListAll])

    [List] is the service's call for one page at a given cursor, with the
    state it acts on. *)

Section ListAll.

Context {T W : Type}.
Variable List : W -> Pagination -> W * fetch_result T.

(** The closure handed to [NewPageIterator]. *)
Definition ListAll_fetch : fetch_fn T W :=
  fun w page itemsPerPage =>
    List w (WithPerPage (WithPage NewPagination page) itemsPerPage).

Definition ListAll (fuel : nat) (perPage : Z) (w : W)
  : option (outcome (list T * option error) * machine T W) :=
  let perPage := if perPage <=? 0 then DefaultPerPage else perPage in
  AllItems fuel (start ListAll_fetch DefaultPage perPage w).

(** What [List] answers to [n] calls in a row at the cursors
    [(page, perPage)], [(page + 1, perPage)], ... *)
Fixpoint List_seq (n : nat) (w : W) (page perPage : Z)
  : list (fetch_result T) :=
  match n with
  | O => []
  | S n =>
      let '(w', res) := List w (mkPagination page perPage) in
      res :: List_seq n w' (page + 1) perPage
  end.

End ListAll.

(** ** [client.go] and [options.go]: the client and its options

    A [*http.Client] is a location in a store of [http.Client] objects, or
    nil; of the fields of an [http.Client] the code sets [Timeout] (in
    nanoseconds).  The five services have the same four fields. *)

Definition Second : Z := 1000000000.
Definition DefaultBaseURL : string := "https://api.bunny.net".
Definition DefaultTimeout : Z := 30 * Second.
Definition DefaultUserAgent : string := "bunnynet-go/1.0.0".

Record http_Client : Type := mk_http_Client {
  Timeout : Z
}.

Abbreviation store := (gmap nat http_Client).

(** [&http.Client{...}]: a new object at a location not in use. *)
Definition new_object (h : store) (c : http_Client) : nat * store :=
  let l := fresh (dom h) in (l, <[l := c]> h).

Record Service : Type := mkService {
  svc_client : option nat;
  svc_baseURL : string;
  svc_apiKey : string;
  svc_userAgent : string
}.

(** [NewCountryService], [NewAPIKeyService], [NewDNSZoneService],
    [NewPullZoneService], [NewPurgeService] *)
Definition NewService (client : option nat) (baseURL apiKey userAgent : string)
  : Service :=
  {| svc_client := client; svc_baseURL := baseURL; svc_apiKey := apiKey;
     svc_userAgent := userAgent |}.

(** The [SetAPIKey] of a service. *)
Definition Service_SetAPIKey (s : Service) (apiKey : string) : Service :=
  {| svc_client := svc_client s; svc_baseURL := svc_baseURL s;
     svc_apiKey := apiKey; svc_userAgent := svc_userAgent s |}.

(** The services are pointers, nil until [NewClient] sets them. *)
Record Client : Type := mkClient {
  c_httpClient : option nat;
  c_BaseURL : string;
  c_apiKey : string;
  c_UserAgent : string;
  c_Country : option Service;
  c_APIKey : option Service;
  c_DNSZone : option Service;
  c_PullZone : option Service;
  c_Purge : option Service
}.

(** The options [options.go] makes. *)
Inductive ClientOption : Type :=
| WithHTTPClient (httpClient : option nat)
| WithBaseURL (baseURL : string)
| WithUserAgent (userAgent : string)
| WithTimeout (timeout : Z).

Definition apply_option (ch : Client * store) (o : ClientOption)
  : Client * store :=
  let '(c, h) := ch in
  match o with
  | WithHTTPClient hc =>
      (mkClient hc (c_BaseURL c) (c_apiKey c) (c_UserAgent c) (c_Country c)
         (c_APIKey c) (c_DNSZone c) (c_PullZone c) (c_Purge c), h)
  | WithBaseURL baseURL =>
      (mkClient (c_httpClient c) baseURL (c_apiKey c) (c_UserAgent c)
         (c_Country c) (c_APIKey c) (c_DNSZone c) (c_PullZone c) (c_Purge c), h)
  | WithUserAgent userAgent =>
      (mkClient (c_httpClient c) (c_BaseURL c) (c_apiKey c) userAgent
         (c_Country c) (c_APIKey c) (c_DNSZone c) (c_PullZone c) (c_Purge c), h)
  | WithTimeout timeout =>
      let '(l, h) :=
        match c_httpClient c with
        | None => new_object h (mk_http_Client 0)
        | Some l => (l, h)
        end in
      (mkClient (Some l) (c_BaseURL c) (c_apiKey c) (c_UserAgent c)
         (c_Country c) (c_APIKey c) (c_DNSZone c) (c_PullZone c) (c_Purge c),
       <[l := mk_http_Client timeout]> h)
  end.

Definition NewClient (apiKey : string) (options : list ClientOption)
    (h : store) : Client * store :=
  let '(l, h) := new_object h (mk_http_Client DefaultTimeout) in
  let client :=
    mkClient (Some l) DefaultBaseURL apiKey DefaultUserAgent
      None None None None None in
  let '(client, h) := foldl apply_option (client, h) options in
  let service :=
    NewService (c_httpClient client) (c_BaseURL client) (c_apiKey client)
      (c_UserAgent client) in
  (mkClient (c_httpClient client) (c_BaseURL client) (c_apiKey client)
     (c_UserAgent client)
     (Some service) (Some service) (Some service) (Some service)
     (Some service),
   h).

(** [SetAPIKey] of the client: the key of the client, then of each service
    in turn; a nil service makes the call panic. *)
Definition SetAPIKey (c : Client) (apiKey : string) : outcome Client :=
  match c_Country c, c_APIKey c, c_DNSZone c, c_PullZone c, c_Purge c with
  | Some country, Some key, Some dns, Some pull, Some purge =>
      Returns
        (mkClient (c_httpClient c) (c_BaseURL c) apiKey (c_UserAgent c)
           (Some (Service_SetAPIKey country apiKey))
           (Some (Service_SetAPIKey key apiKey))
           (Some (Service_SetAPIKey dns apiKey))
           (Some (Service_SetAPIKey pull apiKey))
           (Some (Service_SetAPIKey purge apiKey)))
  | _, _, _, _, _ => Panics
  end.

(** [SetAPIKey] with each of the keys, one after the other. *)
Fixpoint SetAPIKeys (c : Client) (keys : list string) : outcome Client :=
  match keys with
  | [] => Returns c
  | k :: keys' =>
      match SetAPIKey c k with
      | Returns c' => SetAPIKeys c' keys'
      | Panics => Panics
      end
  end.

Definition sets_BaseURL (o : ClientOption) : bool :=
  match o with WithBaseURL _ => true | _ => false end.

Definition sets_UserAgent (o : ClientOption) : bool :=
  match o with WithUserAgent _ => true | _ => false end.

Definition sets_httpClient (o : ClientOption) : bool :=
  match o with WithHTTPClient _ | WithTimeout _ => true | _ => false end.

Definition all_services (c : Client) : list (option Service) :=
  [c_Country c; c_APIKey c; c_DNSZone c; c_PullZone c; c_Purge c].

(** ** Data for the further theorems *)

(** The iterator of the test after its three pages. *)
Definition mock_at_end : machine mockItem unit :=
  run_ops [OpNext; OpNext; OpNext] mock_start.

(** One page of a listing over the table of the test. *)
Definition mock_List : unit -> Pagination -> unit * fetch_result mockItem :=
  fun w p => clientFn mockPages w (Page p) (PerPage p).

(** Stand-ins for [net/url]: a URL known by its query values, which are
    kept as they are; [range] goes over a map in the order of its list of
    entries. *)
Definition values_Query : Values -> Values := fun u => u.
Definition values_set_RawQuery : Values -> string -> Values := fun u _ => u.
Definition values_Encode : Values -> string := fun _ => "".
Definition entries_range : forall A : Type, gmap string A -> list (string * A) :=
  fun A m => map_to_list m.

(** The options of a purge ([resources/purge.go]) and their [url] tags:
    [url] always, [async] when set. *)
Record PurgeOptions : Type := mkPurgeOptions {
  po_URL : string;
  po_Async : bool
}.

Definition PurgeOptions_Values (o : PurgeOptions) : result Values :=
  let v : Values := <["url" := [po_URL o]]> ∅ in
  Ok (if po_Async o then <["async" := ["true"]]> v else v).

Definition search_request : Request Values :=
  {| req_Method := "GET";
     req_URL := <["search" := ["test"]]> ∅;
     req_Header := ∅;
     req_Body := None |}.

(** * Part II: properties *)

(** ** Go's [int] *)
Module GoIntFacts.

Import GoInt.

Lemma wrap_in_range x : in_range x -> wrap x = x.
Proof.
  unfold in_range, wrap, MinInt, MaxInt. intros H.
  rewrite Z.mod_small; lia.
Qed.

Lemma wrap_range x : in_range (wrap x).
Proof.
  unfold in_range, wrap, MinInt, MaxInt.
  pose proof (Z.mod_pos_bound (x + 2 ^ 63) (2 ^ 64) ltac:(lia)). lia.
Qed.

Lemma incr_small x : MinInt <= x < MaxInt -> incr x = x + 1.
Proof.
  intros H. unfold incr, add. apply wrap_in_range.
  unfold in_range. lia.
Qed.

Lemma incr_MaxInt : incr MaxInt = MinInt.
Proof. reflexivity. Qed.

End GoIntFacts.

(** ** Pagination and page information *)

Lemma ceil_ratio_div a b : ceil_ratio a b = - ((- a) / Z.pos (Z.to_pos b)).
Proof. reflexivity. Qed.

(** [ceil_ratio a b] is the least integer [c] with [a <= b * c]. *)
Lemma ceil_ratio_spec a b :
  0 < b -> b * (ceil_ratio a b - 1) < a <= b * ceil_ratio a b.
Proof.
  intros Hb. rewrite ceil_ratio_div, Z2Pos.id by lia.
  pose proof (Z.div_mod (- a) b ltac:(lia)).
  pose proof (Z.mod_pos_bound (- a) b Hb). nia.
Qed.

Section PaginationProps.

(** C5. [WithPage] replaces a page below 1 by 1; [WithPerPage] replaces a
    page size below 1 by 100 and one above 1000 by 1000; a value in range
    is stored as it is. *)
Theorem WithPage_WithPerPage_clamp (p : Pagination) :
  (forall page, page < 1 -> Page (WithPage p page) = 1) /\
  (forall page, 1 <= page -> Page (WithPage p page) = page) /\
  (forall perPage, perPage < 1 -> PerPage (WithPerPage p perPage) = 100) /\
  (forall perPage, 1000 < perPage -> PerPage (WithPerPage p perPage) = 1000) /\
  (forall perPage, 1 <= perPage <= 1000 ->
     PerPage (WithPerPage p perPage) = perPage).
Proof.
  unfold WithPage, WithPerPage, DefaultPage, DefaultPerPage, MaxPerPage.
  repeat split; intros x Hx; cbn [Page PerPage].
  - destruct (Z.ltb_spec x 1); lia.
  - destruct (Z.ltb_spec x 1); lia.
  - destruct (Z.ltb_spec x 1); [reflexivity | lia].
  - destruct (Z.ltb_spec x 1); [lia |].
    destruct (Z.gtb_spec x 1000); lia.
  - destruct (Z.ltb_spec x 1); [lia |].
    destruct (Z.gtb_spec x 1000); lia.
Qed.

Lemma WithPage_keeps_PerPage p page : PerPage (WithPage p page) = PerPage p.
Proof. reflexivity. Qed.

Lemma WithPerPage_keeps_Page p perPage : Page (WithPerPage p perPage) = Page p.
Proof. reflexivity. Qed.

Lemma WithPage_ge_1 p page : 1 <= Page (WithPage p page).
Proof.
  unfold WithPage, DefaultPage; cbn. destruct (Z.ltb_spec page 1); lia.
Qed.

Lemma WithPage_in_range p page :
  GoInt.in_range page -> GoInt.in_range (Page (WithPage p page)).
Proof.
  unfold WithPage, DefaultPage, GoInt.in_range, GoInt.MinInt, GoInt.MaxInt.
  cbn. destruct (page <? 1); lia.
Qed.

Lemma WithPerPage_bounds p perPage :
  1 <= PerPage (WithPerPage p perPage) <= 1000.
Proof.
  unfold WithPerPage, DefaultPerPage, MaxPerPage; cbn.
  destruct (Z.ltb_spec perPage 1).
  - cbn. lia.
  - destruct (Z.gtb_spec perPage 1000); lia.
Qed.

End PaginationProps.

Section PageInfoProps.

Lemma quot_rem_ceil a b :
  0 <= a -> 0 < b ->
  (if Z.rem a b >? 0 then Z.quot a b + 1 else Z.quot a b) = ceil_ratio a b.
Proof.
  intros Ha Hb.
  rewrite Z.quot_div_nonneg, Z.rem_mod_nonneg by lia.
  pose proof (ceil_ratio_spec a b Hb) as Hc.
  pose proof (Z.div_mod a b ltac:(lia)).
  pose proof (Z.mod_pos_bound a b Hb).
  destruct (Z.gtb_spec (a mod b) 0); nia.
Qed.

Lemma quot_bounds a b :
  0 <= a <= GoInt.MaxInt -> 0 < b ->
  0 <= Z.quot a b <= GoInt.MaxInt /\
  (Z.rem a b > 0 -> Z.quot a b < GoInt.MaxInt).
Proof.
  intros Ha Hb.
  rewrite Z.quot_div_nonneg, Z.rem_mod_nonneg by lia.
  pose proof (Z.div_mod a b ltac:(lia)).
  pose proof (Z.mod_pos_bound a b Hb).
  assert (0 <= a / b) by (apply Z.div_pos; lia).
  split; [split; [lia | nia] | intros; nia].
Qed.

(** C6. For a non-negative item count and a positive page size,
    [TotalPages] is the ceiling of their ratio; for a page size of zero or
    less it is 0; 25 items make 5 pages of 5 and 3 pages of 10. *)
Theorem TotalPages_ceil :
  (forall p perPage,
      0 <= pi_TotalItems p -> GoInt.in_range (pi_TotalItems p) ->
      0 < perPage ->
      TotalPages p perPage = ceil_ratio (pi_TotalItems p) perPage) /\
  (forall p perPage, perPage <= 0 -> TotalPages p perPage = 0) /\
  (forall cur more, TotalPages (mkPageInfo cur 25 more) 5 = 5) /\
  (forall cur more, TotalPages (mkPageInfo cur 25 more) 10 = 3).
Proof.
  split; [| split; [| split; reflexivity]].
  - intros [cur a more] b Ha Hr Hb. cbn [pi_TotalItems] in *.
    unfold TotalPages. cbn [pi_TotalItems].
    destruct (Z.leb_spec b 0); [lia |].
    destruct Hr as [_ Hmax].
    destruct (quot_bounds a b ltac:(lia) Hb) as [Hq Hlt].
    unfold GoInt.quo, GoInt.rem.
    rewrite (GoIntFacts.wrap_in_range (Z.quot a b))
      by (unfold GoInt.in_range, GoInt.MinInt, GoInt.MaxInt in *; lia).
    rewrite <- (quot_rem_ceil a b Ha Hb).
    destruct (Z.gtb_spec (Z.rem a b) 0); [| reflexivity].
    apply GoIntFacts.incr_small. unfold GoInt.MinInt, GoInt.MaxInt in *. lia.
  - intros p b Hb. unfold TotalPages.
    destruct (Z.leb_spec b 0); [reflexivity | lia].
Qed.

End PageInfoProps.

(** ** One call of [Next] *)

Section IteratorProps.

Context {T W : Type}.
Implicit Types (m : machine T W) (r : PaginatedResponse T) (e : error).

Lemma Next_failed m e : Error m = Some e -> Next m = (Returns false, m).
Proof. unfold Error, Next. intros ->. reflexivity. Qed.

Lemma Next_exhausted m r :
  currentResponse (iter m) = Some r -> HasMoreItems r = false ->
  exists b, Next m = (Returns b, m) /\ b = false.
Proof.
  intros Hr Hm. unfold Next. rewrite Hr, Hm. cbn.
  destruct (err (iter m)); eauto.
Qed.

Lemma Next_fetches m :
  non_terminal m ->
  Next m =
    let i := iter m in
    let '(res, m1) := call_client m in
    match res with
    | (_, Some e) => (Returns false, set_iter m1 (with_err i (Some e)))
    | (response, None) =>
        let i := with_currentResponse i response in
        let i := with_Page i (GoInt.incr (Page (pagination i))) in
        match response with
        | Some r => (Returns (0 <? Z.of_nat (length (Items r))), set_iter m1 i)
        | None => (Panics, set_iter m1 i)
        end
    end.
Proof.
  intros [He Hr]. unfold Next. rewrite He.
  destruct (currentResponse (iter m)) as [r|] eqn:Hc; [| reflexivity].
  rewrite (Hr r eq_refl). reflexivity.
Qed.

(** C1. In a non-terminal state, when the fetch function returns a
    response [r] and no error, [Next] stores [r] as the current response,
    adds one to the page cursor whatever [HasMoreItems r] is, and returns
    true exactly when [r] has at least one item.  The fetch function is
    called once, with the cursor's page and page size; the page size and
    the (absent) error stay as they were. *)
Theorem Next_success m r (w' : W) :
  non_terminal m ->
  client (iter m) (world m) (Page (cursor m)) (PerPage (cursor m))
    = (w', (Some r, None)) ->
  exists b m',
    Next m = (Returns b, m') /\
    currentResponse (iter m') = Some r /\
    Page (cursor m') = GoInt.incr (Page (cursor m)) /\
    (GoInt.MinInt <= Page (cursor m) < GoInt.MaxInt ->
       Page (cursor m') = Page (cursor m) + 1) /\
    (b = true <-> (0 < length (Items r))%nat) /\
    PerPage (cursor m') = PerPage (cursor m) /\
    Error m' = None /\
    world m' = w' /\
    calls m' =
      calls m ++ [mkCall (Page (cursor m)) (PerPage (cursor m))
                    (Some r, None)].
Proof.
  intros Hnt Hc. rewrite (Next_fetches m Hnt). destruct Hnt as [He _].
  unfold call_client, cursor in *. cbn zeta. rewrite Hc.
  eexists _, _. split; [reflexivity |]. unfold Error. cbn.
  repeat split; try reflexivity.
  - apply GoIntFacts.incr_small.
  - intros H. apply Z.ltb_lt in H. lia.
  - intros H. apply Z.ltb_lt. lia.
  - exact He.
Qed.

Lemma Next_run_failed m e n :
  Error m = Some e -> Next_run n m = replicate n (Returns false, m).
Proof.
  intros He. induction n as [| n IH]; [reflexivity |].
  cbn [Next_run replicate]. rewrite (Next_failed m e He). cbn [snd].
  rewrite IH. reflexivity.
Qed.

(** C2. Once an error is stored, every further call of [Next] returns
    false and leaves the whole state as it was: the fetch function is not
    called (the call log and the world do not change) and [Error] still
    gives the stored error; [Reset] clears it. *)
Theorem Next_frozen_after_error m e (n : nat) :
  Error m = Some e ->
  Forall (fun rm : outcome bool * machine T W =>
            fst rm = Returns false /\
            calls (snd rm) = calls m /\
            world (snd rm) = world m /\
            Error (snd rm) = Some e)
         (Next_run n m) /\
  length (Next_run n m) = n /\
  Error (Reset m) = None.
Proof.
  intros He. rewrite (Next_run_failed m e n He).
  split; [| split].
  - apply Forall_forall. intros rm Hin.
    apply elem_of_replicate in Hin as [-> _]. cbn. auto.
  - apply length_replicate.
  - reflexivity.
Qed.

End IteratorProps.

(** ** The cursor of the iterator *)

Section CursorProps.

Context {T W : Type}.
Implicit Types (m : machine T W) (ops : list iter_op).

Lemma Next_PerPage m : PerPage (cursor (snd (Next m))) = PerPage (cursor m).
Proof.
  unfold Next, cursor, call_client.
  destruct (err (iter m)); [reflexivity |].
  destruct (match currentResponse (iter m) with
            | Some r => negb (HasMoreItems r) | None => false end);
    [reflexivity |].
  destruct (client (iter m) (world m) _ _) as [w' [[r|] [e|]]]; reflexivity.
Qed.


Lemma Reset_PerPage m : PerPage (cursor (Reset m)) = PerPage (cursor m).
Proof. reflexivity. Qed.



Lemma run_op_PerPage m o : PerPage (cursor (run_op m o)) = PerPage (cursor m).
Proof. destruct o; [apply Next_PerPage | apply Reset_PerPage]. Qed.

Lemma run_ops_cons o ops m : run_ops (o :: ops) m = run_ops ops (run_op m o).
Proof. reflexivity. Qed.

Lemma run_ops_PerPage ops m :
  PerPage (cursor (run_ops ops m)) = PerPage (cursor m).
Proof.
  revert m. induction ops as [| o ops IH]; intros m; [reflexivity |].
  rewrite run_ops_cons, IH. apply run_op_PerPage.
Qed.




End CursorProps.


(** ** Walking all pages *)

Section Walk.

Context {T W : Type}.
Implicit Types (m : machine T W) (r : PaginatedResponse T) (e : error).

Lemma Next_ok_eq m r (w' : W) :
  non_terminal m ->
  client (iter m) (world m) (Page (cursor m)) (PerPage (cursor m))
    = (w', (Some r, None)) ->
  Next m =
    (Returns (0 <? Z.of_nat (length (Items r))),
     {| iter := {| client := client (iter m);
                   pagination := {| Page := GoInt.incr (Page (cursor m));
                                    PerPage := PerPage (cursor m) |};
                   currentResponse := Some r;
                   err := None |};
        world := w';
        calls := calls m ++ [mkCall (Page (cursor m)) (PerPage (cursor m))
                               (Some r, None)] |}).
Proof.
  intros Hnt Hc. rewrite (Next_fetches m Hnt). destruct Hnt as [He _].
  unfold call_client, cursor in *. cbn zeta. rewrite Hc.
  unfold set_iter, with_Page, with_currentResponse. cbn.
  rewrite He. reflexivity.
Qed.

Lemma Next_err_eq m e (o : option (PaginatedResponse T)) (w' : W) :
  non_terminal m ->
  client (iter m) (world m) (Page (cursor m)) (PerPage (cursor m))
    = (w', (o, Some e)) ->
  Next m =
    (Returns false,
     {| iter := {| client := client (iter m);
                   pagination := pagination (iter m);
                   currentResponse := currentResponse (iter m);
                   err := Some e |};
        world := w';
        calls := calls m ++ [mkCall (Page (cursor m)) (PerPage (cursor m))
                               (o, Some e)] |}).
Proof.
  intros Hnt Hc. rewrite (Next_fetches m Hnt).
  unfold call_client, cursor in *. cbn zeta. rewrite Hc. reflexivity.
Qed.

Lemma Next_nil_eq m (w' : W) :
  non_terminal m ->
  client (iter m) (world m) (Page (cursor m)) (PerPage (cursor m))
    = (w', (None, None)) ->
  fst (Next m) = Panics.
Proof.
  intros Hnt Hc. rewrite (Next_fetches m Hnt).
  unfold call_client, cursor in *. cbn zeta. rewrite Hc. reflexivity.
Qed.

Lemma Reset_non_terminal m : non_terminal (Reset m).
Proof. split; [reflexivity | intros r Hr; discriminate Hr]. Qed.

(** The loop of [AllItems], started in a non-terminal state with [acc]
    collected so far, against the walk over the answers still to come. *)
Lemma AllItems_loop_walk n : forall m acc o,
  non_terminal m ->
  walk_result (fetch_seq (client (iter m)) n (world m)
                 (Page (cursor m)) (PerPage (cursor m))) = Some o ->
  exists m',
    match o with
    | Panics => AllItems_loop (S n) acc m = Some (Panics, m')
    | Returns (items, None) =>
        AllItems_loop (S n) acc m = Some (Returns (acc ++ items), m') /\
        Error m' = None
    | Returns (items, Some e) =>
        (exists partial,
            AllItems_loop (S n) acc m = Some (Returns partial, m')) /\
        items = [] /\ Error m' = Some e
    end.
Proof.
  induction n as [| n IH]; intros m acc o Hnt Hw; [discriminate Hw |].
  cbn [fetch_seq] in Hw.
  destruct (client (iter m) (world m) (Page (cursor m)) (PerPage (cursor m)))
    as [w' [[r|] [e|]]] eqn:Hc; cbn [walk_result] in Hw.
  - (* a response and an error: the error wins *)
    injection Hw as <-. cbn [AllItems_loop].
    rewrite (Next_err_eq m e _ w' Hnt Hc).
    eexists. split; [eexists; reflexivity | split; reflexivity].
  - (* a page *)
    pose proof (Next_ok_eq m r w' Hnt Hc) as HN.
    destruct (Items r) as [| x xs] eqn:Hi.
    + (* no items: [Next] is false *)
      injection Hw as <-. cbn [AllItems_loop]. rewrite HN. cbn.
      eexists. rewrite app_nil_r. split; reflexivity.
    + set (m1 := snd (Next m)).
      assert (Hm1 : Next m = (Returns true, m1)).
      { unfold m1. rewrite HN. reflexivity. }
      assert (Hit : IterItems m1 = x :: xs).
      { unfold m1. rewrite HN. cbn. exact Hi. }
      destruct (HasMoreItems r) eqn:Hmore.
      * (* more to come: go on with the next page *)
        assert (Hnt1 : non_terminal m1).
        { unfold m1. rewrite HN. split; [reflexivity |].
          cbn. intros r0 [= <-]. exact Hmore. }
        assert (Hw1 : exists o1,
                   walk_result (fetch_seq (client (iter m1)) n (world m1)
                                  (Page (cursor m1)) (PerPage (cursor m1)))
                     = Some o1 /\
                   o = match o1 with
                       | Returns (items, None) =>
                           Returns ((x :: xs) ++ items, None)
                       | other => other
                       end).
        { unfold m1. rewrite HN. cbn [snd iter world client cursor pagination
                                       Page PerPage].
          fold (cursor m).
          destruct (walk_result _) as [[[items [e1|]]|]|];
            try discriminate Hw; injection Hw as <-;
            eexists; (split; [reflexivity |]); reflexivity. }
        destruct Hw1 as (o1 & Hw1 & ->).
        destruct (IH m1 (acc ++ x :: xs) o1 Hnt1 Hw1) as [m' Hm'].
        exists m'. change (AllItems_loop (S (S n)) acc m)
          with (match Next m with
                | (Panics, m') => Some (Panics, m')
                | (Returns true, m') =>
                    AllItems_loop (S n) (acc ++ IterItems m') m'
                | (Returns false, m') => Some (Returns acc, m')
                end).
        rewrite Hm1, Hit.
        destruct o1 as [[items [e1|]]|].
        -- exact Hm'.
        -- rewrite app_assoc. exact Hm'.
        -- exact Hm'.
      * (* the last page: taken, then [Next] is false without a fetch *)
        injection Hw as <-.
        change (AllItems_loop (S (S n)) acc m)
          with (match Next m with
                | (Panics, m') => Some (Panics, m')
                | (Returns true, m') =>
                    AllItems_loop (S n) (acc ++ IterItems m') m'
                | (Returns false, m') => Some (Returns acc, m')
                end).
        rewrite Hm1, Hit. cbn [AllItems_loop].
        assert (Hex : Next m1 = (Returns false, m1) /\ Error m1 = None).
        { unfold m1. rewrite HN. cbn. unfold Next. cbn. rewrite Hmore.
          split; reflexivity. }
        destruct Hex as [-> He1]. exists m1. split; [reflexivity | exact He1].
  - (* no response, an error *)
    injection Hw as <-. cbn [AllItems_loop].
    rewrite (Next_err_eq m e _ w' Hnt Hc).
    eexists. split; [eexists; reflexivity | split; reflexivity].
  - (* neither a response nor an error *)
    injection Hw as <-. cbn [AllItems_loop].
    pose proof (Next_nil_eq m w' Hnt Hc) as Hp.
    destruct (Next m) as [[b|] m2]; [discriminate Hp |].
    eexists. reflexivity.
Qed.

End Walk.

Section WalkProps.

Context {T W : Type}.
Implicit Types (m : machine T W) (r : PaginatedResponse T) (e : error).

(** [AllItems] against the walk over the answers of the fetch function to
    calls for the pages 1, 2, ...: one more round of the loop than answers
    looked at is enough. *)
Lemma AllItems_of_walk m (n : nat) (o : outcome (list T * option error)) :
  walk_result (fetch_seq (client (iter m)) n (world m)
                 DefaultPage (PerPage (cursor m))) = Some o ->
  exists m', AllItems (S n) m = Some (o, m').
Proof.
  intros Hw.
  destruct (AllItems_loop_walk n (Reset m) [] o (Reset_non_terminal m) Hw)
    as [m' Hm'].
  exists m'. unfold AllItems.
  destruct o as [[items [e|]]|].
  - destruct Hm' as ([partial ->] & -> & ->). reflexivity.
  - destruct Hm' as [-> ->]. reflexivity.
  - rewrite Hm'. reflexivity.
Qed.


(** C3.  A fetch function that answers the calls for pages 1, 2, 3 at page
    size 2 with two items and more to come, two items and more to come, one
    item and no more: [Next] is true three times and false the fourth time,
    [Error] is nil before and after each call, and [AllItems] on a fresh
    iterator returns the five items in page order with no error. *)
Theorem Next_three_pages (c : fetch_fn T W) (w : W)
    (p1 p2 p3 : PaginatedResponse T) :
  fetch_seq c 3 w 1 2 = [(Some p1, None); (Some p2, None); (Some p3, None)] ->
  length (Items p1) = 2%nat -> HasMoreItems p1 = true ->
  length (Items p2) = 2%nat -> HasMoreItems p2 = true ->
  length (Items p3) = 1%nat -> HasMoreItems p3 = false ->
  let m0 := start c 1 2 w in
  map fst (Next_run 4 m0)
    = [Returns true; Returns true; Returns true; Returns false] /\
  Error m0 = None /\
  Forall (fun rm : outcome bool * machine T W => Error (snd rm) = None)
         (Next_run 4 m0) /\
  exists m',
    AllItems 4 m0
      = Some (Returns (Items p1 ++ Items p2 ++ Items p3, None), m') /\
    length (Items p1 ++ Items p2 ++ Items p3) = 5%nat.
Proof.
  intros Hseq L1 M1 L2 M2 L3 M3 m0.
  split; [| split; [reflexivity | split]].
  - (* the four calls *)
    cbn [fetch_seq] in Hseq.
    destruct (c w 1 2) as [w1 a1] eqn:E1.
    destruct (c w1 (GoInt.incr 1) 2) as [w2 a2] eqn:E2.
    destruct (c w2 (GoInt.incr (GoInt.incr 1)) 2) as [w3 a3] eqn:E3.
    injection Hseq as -> -> ->.
    assert (H0 : non_terminal m0) by (split; [reflexivity | discriminate]).
    cbn [Next_run map].
    rewrite (Next_ok_eq m0 p1 w1 H0 E1), L1. cbn [fst snd].
    match goal with |- context [Next ?m] => set (m1 := m) end.
    assert (H1 : non_terminal m1).
    { split; [reflexivity | intros r [= <-]; exact M1]. }
    rewrite (Next_ok_eq m1 p2 w2 H1 E2), L2. cbn [fst snd].
    match goal with |- context [Next ?m] => set (m2 := m) end.
    assert (H2 : non_terminal m2).
    { split; [reflexivity | intros r [= <-]; exact M2]. }
    rewrite (Next_ok_eq m2 p3 w3 H2 E3), L3. cbn [fst snd].
    match goal with |- context [Next ?m] => set (m3 := m) end.
    destruct (Next_exhausted m3 p3 eq_refl M3) as (b & -> & ->).
    reflexivity.
  - cbn [fetch_seq] in Hseq.
    destruct (c w 1 2) as [w1 a1] eqn:E1.
    destruct (c w1 (GoInt.incr 1) 2) as [w2 a2] eqn:E2.
    destruct (c w2 (GoInt.incr (GoInt.incr 1)) 2) as [w3 a3] eqn:E3.
    injection Hseq as -> -> ->.
    assert (H0 : non_terminal m0) by (split; [reflexivity | discriminate]).
    cbn [Next_run].
    rewrite (Next_ok_eq m0 p1 w1 H0 E1). cbn [snd].
    match goal with |- context [Next ?m] => set (m1 := m) end.
    assert (H1 : non_terminal m1).
    { split; [reflexivity | intros r [= <-]; exact M1]. }
    rewrite (Next_ok_eq m1 p2 w2 H1 E2). cbn [snd].
    match goal with |- context [Next ?m] => set (m2 := m) end.
    assert (H2 : non_terminal m2).
    { split; [reflexivity | intros r [= <-]; exact M2]. }
    rewrite (Next_ok_eq m2 p3 w3 H2 E3). cbn [snd].
    match goal with |- context [Next ?m] => set (m3 := m) end.
    destruct (Next_exhausted m3 p3 eq_refl M3) as (b & -> & ->).
    repeat constructor.
  - (* the whole collection *)
    assert (Hw : walk_result (fetch_seq c 3 w 1 2)
                 = Some (Returns (Items p1 ++ Items p2 ++ Items p3, None))).
    { rewrite Hseq. cbn [walk_result]. rewrite M1, M2, M3.
      destruct (Items p1) as [| x1 l1]; [discriminate L1 |].
      destruct (Items p2) as [| x2 l2]; [discriminate L2 |].
      destruct (Items p3) as [| x3 l3]; [discriminate L3 |].
      reflexivity. }
    destruct (AllItems_of_walk m0 3 _ Hw) as [m' Hm'].
    exists m'. split; [exact Hm' |].
    rewrite !length_app, L1, L2, L3. reflexivity.
Qed.

End WalkProps.


(** ** Tables without an empty page before the end *)

Section TableWalk.

Context {T : Type}.
Implicit Types (pages : list (PaginatedResponse T)).

Lemma walk_result_table pages :
  well_formed_pages pages = true -> no_gap pages ->
  walk_result (answers_of pages)
    = Some (Returns (remote_collection pages, None)).
Proof.
  unfold no_gap, remote_collection, answers_of.
  induction pages as [| r rest IH]; [discriminate |].
  intros Hwf Hgap. apply Forall_cons in Hgap as [Hr Hrest].
  cbn [map walk_result concat].
  destruct rest as [| r' rest'].
  - cbn [well_formed_pages] in Hwf. apply negb_true_iff in Hwf.
    rewrite Hwf. cbn [map concat]. rewrite app_nil_r.
    destruct (Items r); reflexivity.
  - change (well_formed_pages (r :: r' :: rest'))
      with (HasMoreItems r && well_formed_pages (r' :: rest')) in Hwf.
    apply andb_true_iff in Hwf as [Hm Hwf].
    rewrite Hm, (IH Hwf Hrest).
    destruct (Items r) as [| x xs] eqn:Hi; [| reflexivity].
    exfalso. exact (Hr Hm eq_refl).
Qed.

Lemma clientFn_lookup (done todo : list (PaginatedResponse T)) r perPage :
  clientFn (done ++ r :: todo) tt (Z.of_nat (length done) + 1) perPage
    = (tt, (Some r, None)).
Proof.
  unfold clientFn. rewrite length_app. cbn [length].
  destruct (Z.ltb_spec (Z.of_nat (length done) + 1) 1); [lia |].
  destruct (Z.gtb_spec (Z.of_nat (length done) + 1)
              (Z.of_nat (length done + S (length todo)))); [lia |].
  cbn [orb].
  replace (Z.to_nat (Z.of_nat (length done) + 1 - 1)) with (length done) by lia.
  rewrite list_lookup_middle by reflexivity. reflexivity.
Qed.

Lemma fetch_seq_clientFn (todo : list (PaginatedResponse T)) :
  forall (done : list (PaginatedResponse T)) perPage,
  Z.of_nat (length (done ++ todo)) < GoInt.MaxInt ->
  fetch_seq (clientFn (done ++ todo)) (length todo) tt
    (Z.of_nat (length done) + 1) perPage
    = answers_of todo.
Proof.
  induction todo as [| r todo IH]; intros done perPage Hlen; [reflexivity |].
  cbn [length fetch_seq]. rewrite clientFn_lookup.
  unfold answers_of. cbn [map]. f_equal.
  rewrite length_app in Hlen. cbn [length] in Hlen.
  rewrite GoIntFacts.incr_small by (unfold GoInt.MinInt, GoInt.MaxInt in *; lia).
  assert (Hpage : Z.of_nat (length done) + 1 + 1
                  = Z.of_nat (length (done ++ [r])) + 1).
  { rewrite length_app. cbn [length]. lia. }
  rewrite Hpage.
  replace (done ++ r :: todo) with ((done ++ [r]) ++ todo)
    by (rewrite <- app_assoc; reflexivity).
  apply IH. rewrite <- app_assoc, length_app. cbn [app length]. exact Hlen.
Qed.

(** Over a table as a server hands it out, with no empty page that
    announces more items, [AllItems] returns the whole collection. *)
Lemma AllItems_complete_table pages (page perPage : Z) :
  well_formed_pages pages = true -> no_gap pages ->
  Z.of_nat (length pages) < GoInt.MaxInt ->
  exists m',
    AllItems (S (length pages)) (start (clientFn pages) page perPage tt)
      = Some (Returns (remote_collection pages, None), m').
Proof.
  intros Hwf Hgap Hlen. apply AllItems_of_walk.
  cbn [start iter world client NewPageIterator].
  rewrite (fetch_seq_clientFn pages [] _ Hlen).
  apply walk_result_table; assumption.
Qed.

End TableWalk.

(** ** Decoding a response *)

Section DecoderProps.

Variable json_Decode_ErrorResponse : body -> option (string * string * string).
Variable V : Type.
Variable json_Unmarshal : string -> V -> V * option error.
Variable Req : Type.
Variable http_Do : Req -> Response + error.

Lemma ParseErrorResponse_undecodable resp :
  400 <= StatusCode resp ->
  json_Decode_ErrorResponse (Body resp) = None ->
  ParseErrorResponse json_Decode_ErrorResponse resp
    = Some (ErrorString
              ("bunnynet API error: status code " +:+ fmt_d (StatusCode resp))).
Proof.
  intros Hs Hd. unfold ParseErrorResponse. rewrite Hd.
  destruct (Z.ltb_spec (StatusCode resp) 300); [lia |].
  rewrite andb_false_r. reflexivity.
Qed.

(** C7 (as amended).  For a response with status 400 or more whose body does
    not decode as an [ErrorResponse], error parsing returns an error, which
    is a plain error value made by [fmt.Errorf], neither a [ClientError] nor
    an [ErrorResponse]; its text is "bunnynet API error: status code "
    followed by the status code, and the parse failure is not part of it. *)
Theorem ParseErrorResponse_generic_error resp :
  400 <= StatusCode resp ->
  json_Decode_ErrorResponse (Body resp) = None ->
  exists e,
    ParseErrorResponse json_Decode_ErrorResponse resp = Some e /\
    e = ErrorString
          ("bunnynet API error: status code " +:+ fmt_d (StatusCode resp)) /\
    error_Error e
      = "bunnynet API error: status code " +:+ fmt_d (StatusCode resp) /\
    is_ClientError e = false /\
    is_ErrorResponse e = false /\
    ClientError_Unwrap e = None.
Proof.
  intros Hs Hd. eexists. split.
  - apply ParseErrorResponse_undecodable; assumption.
  - repeat split.
Qed.

Lemma ParseErrorResponse_is_error resp :
  400 <= StatusCode resp ->
  exists e, ParseErrorResponse json_Decode_ErrorResponse resp = Some e.
Proof.
  intros Hs. unfold ParseErrorResponse.
  destruct (Z.ltb_spec (StatusCode resp) 300); [lia |].
  rewrite andb_false_r.
  destruct (json_Decode_ErrorResponse (Body resp)) as [[[k f] msg]|]; eauto.
Qed.

Lemma ParsePaginatedResponse_with_status resp status (x : V) :
  ParsePaginatedResponse V json_Unmarshal (with_status resp status) x
    = ParsePaginatedResponse V json_Unmarshal resp x.
Proof. reflexivity. Qed.

(** C8.  [ParsePaginatedResponse] reads the body to the end and decodes it
    into the target whatever the status code is: where the body reads and
    decodes, the decoded value comes back with no error, also at status 204
    and at status 400 or more, where [ParseResponse] returns at once (at 204
    with the target untouched, at 400 or more with the parsed error).  The
    check of the status is in [DoRequest], which returns an error for every
    status of 400 or more, so that a listing returns that error and does not
    decode. *)
Theorem ParsePaginatedResponse_no_short_circuit :
  (forall resp status (x : V),
      ParsePaginatedResponse V json_Unmarshal (with_status resp status) x
        = ParsePaginatedResponse V json_Unmarshal resp x) /\
  (forall resp (x x' : V),
      body_read_err (Body resp) = None ->
      json_Unmarshal (body_data (Body resp)) x = (x', None) ->
      ParsePaginatedResponse V json_Unmarshal resp x = (None, x')) /\
  (forall resp (v : option V),
      StatusCode resp = 204 ->
      ParseResponse json_Decode_ErrorResponse V json_Unmarshal resp v
        = (None, v)) /\
  (forall resp (x : V),
      400 <= StatusCode resp ->
      ParseResponse json_Decode_ErrorResponse V json_Unmarshal resp (Some x)
        = (ParseErrorResponse json_Decode_ErrorResponse resp, Some x)) /\
  (forall (req : Req) resp,
      http_Do req = inl resp ->
      400 <= StatusCode resp ->
      exists e,
        DoRequest json_Decode_ErrorResponse Req http_Do req
          = (Some resp, Some e) /\
        forall zero : V,
          ListPaginated_exchange json_Decode_ErrorResponse V json_Unmarshal
            Req http_Do zero req = Returns (None, Some e)).
Proof.
  split; [| split; [| split; [| split]]].
  - intros; apply ParsePaginatedResponse_with_status.
  - intros resp x x' Hr Hu. unfold ParsePaginatedResponse, io_ReadAll.
    rewrite Hr, Hu. reflexivity.
  - intros resp v Hs. unfold ParseResponse. rewrite Hs. reflexivity.
  - intros resp x Hs. unfold ParseResponse, StatusNoContent.
    destruct (Z.eqb_spec (StatusCode resp) 204); [lia |].
    destruct (Z.geb_spec (StatusCode resp) 400); [reflexivity | lia].
  - intros req resp Hdo Hs.
    destruct (ParseErrorResponse_is_error resp Hs) as [e He].
    exists e.
    assert (Hreq : DoRequest json_Decode_ErrorResponse Req http_Do req
                   = (Some resp, Some e)).
    { unfold DoRequest. rewrite Hdo.
      destruct (Z.geb_spec (StatusCode resp) 400); [| lia].
      rewrite He. reflexivity. }
    split; [exact Hreq |].
    intros zero. unfold ListPaginated_exchange. rewrite Hreq. reflexivity.
Qed.

End DecoderProps.

(** C7, counterexample.  Status 500 with a body that is not JSON, under a
    decoder that decodes no body: the error is the plain one, not a
    [ClientError]. *)
Lemma ParseErrorResponse_not_ClientError :
  400 <= StatusCode resp_500 /\
  decodes_nothing (Body resp_500) = None /\
  ParseErrorResponse decodes_nothing resp_500
    = Some (ErrorString "bunnynet API error: status code 500") /\
  ~ (exists e, ParseErrorResponse decodes_nothing resp_500 = Some e /\
               is_ClientError e = true).
Proof.
  split; [cbn; lia |]. split; [reflexivity |]. split; [reflexivity |].
  intros (e & He & Hc). injection He as <-. discriminate Hc.
Qed.

(** ** Building a request *)

Section RequestProps.

Variable URL : Type.
Variable url_Parse : string -> result URL.
Variable url_ResolveReference : URL -> string -> URL.
Variable url_String : URL -> string.
Variable B : Type.
Variable json_Marshal : B -> result string.

Lemma sends_body_carries_json method (body : option B) :
  sends_body B method body = true <-> carries_json method body.
Proof.
  unfold sends_body, carries_json, MethodPost, MethodPut, MethodPatch.
  destruct body as [b|].
  - rewrite !orb_true_iff, !String.eqb_eq. split.
    + intros [[H | H] | H]; split; auto; discriminate.
    + intros [_ [H | [H | H]]]; auto.
  - split; [discriminate | intros [H _]; contradiction].
Qed.

Lemma Header_Values_empty key : Header_Values ∅ key = None.
Proof. apply lookup_empty. Qed.

Lemma Header_Values_Set_eq (h : Header) key value :
  Header_Values (Header_Set h key value) key = Some [value].
Proof. apply lookup_insert_eq. Qed.

Lemma Header_Values_Set_ne (h : Header) key key' value :
  CanonicalMIMEHeaderKey key <> CanonicalMIMEHeaderKey key' ->
  Header_Values (Header_Set h key value) key' = Header_Values h key'.
Proof. intros H. apply lookup_insert_ne. exact H. Qed.

Lemma canonical_AccessKey : CanonicalMIMEHeaderKey "AccessKey" = "Accesskey".
Proof. reflexivity. Qed.

Lemma canonical_User_Agent : CanonicalMIMEHeaderKey "user-agent" = "User-Agent".
Proof. reflexivity. Qed.

Lemma NewRequest_Ok method baseURL path body apiKey userAgent
    (req : Request URL) :
  NewRequest URL url_Parse url_ResolveReference url_String B json_Marshal
    method baseURL path body apiKey userAgent = Ok req ->
  req_Header req = built_header method body apiKey userAgent /\
  match body with
  | Some b =>
      if sends_body B method body
      then exists s, json_Marshal b = Ok s /\
                     req_Body req = Some (s +:+ String "010"%char EmptyString)
      else req_Body req = None
  | None => req_Body req = None
  end.
Proof.
  unfold NewRequest, built_header.
  destruct (url_Parse baseURL) as [u0 | e0]; [| discriminate].
  assert (Hreq : forall payload r,
             http_NewRequest URL url_Parse method
               (url_String (url_ResolveReference u0 path)) payload = Ok r ->
             req_Header r = ∅ /\ req_Body r = payload).
  { intros payload r. unfold http_NewRequest.
    destruct (negb (validMethod _)); [discriminate |].
    destruct (url_Parse _); [| discriminate].
    intros [= <-]. split; reflexivity. }
  destruct body as [b|].
  - destruct (sends_body B method (Some b)) eqn:Hs.
    + unfold json_Encode. destruct (json_Marshal b) as [s | e]; [| discriminate].
      destruct (http_NewRequest _ _ _ _ _) as [r | e] eqn:Hr; [| discriminate].
      destruct (Hreq _ _ Hr) as [Hh Hb]. intros [= <-].
      split.
      * destruct (negb (String.eqb apiKey "")),
                 (negb (String.eqb userAgent "")); cbn; rewrite Hh; reflexivity.
      * exists s. split; [reflexivity |].
        destruct (negb (String.eqb apiKey "")),
                 (negb (String.eqb userAgent "")); cbn; exact Hb.
    + destruct (http_NewRequest _ _ _ _ _) as [r | e] eqn:Hr; [| discriminate].
      destruct (Hreq _ _ Hr) as [Hh Hb]. intros [= <-].
      split;
        destruct (negb (String.eqb apiKey "")),
                 (negb (String.eqb userAgent "")); cbn;
        first [rewrite Hh; reflexivity | exact Hb].
  - cbn [sends_body].
    destruct (http_NewRequest _ _ _ _ _) as [r | e] eqn:Hr; [| discriminate].
    destruct (Hreq _ _ Hr) as [Hh Hb]. intros [= <-].
    split;
      destruct (negb (String.eqb apiKey "")),
               (negb (String.eqb userAgent "")); cbn;
      first [rewrite Hh; reflexivity | exact Hb].
Qed.

Ltac header_lookup :=
  repeat first
    [ rewrite Header_Values_Set_eq
    | rewrite Header_Values_Set_ne
        by (let Hk := fresh in intros Hk; vm_compute in Hk; discriminate Hk)
    | rewrite Header_Values_empty ].

Lemma built_header_Accept method (body : option B) apiKey userAgent :
  Header_Values (built_header method body apiKey userAgent) "Accept"
    = Some ["application/json"].
Proof.
  unfold built_header.
  destruct (sends_body B method body), (negb (String.eqb apiKey "")),
    (negb (String.eqb userAgent "")); header_lookup; reflexivity.
Qed.

Lemma built_header_Content_Type method (body : option B) apiKey userAgent :
  Header_Values (built_header method body apiKey userAgent) "Content-Type"
    = if sends_body B method body then Some ["application/json"] else None.
Proof.
  unfold built_header.
  destruct (sends_body B method body), (negb (String.eqb apiKey "")),
    (negb (String.eqb userAgent "")); header_lookup; reflexivity.
Qed.

Lemma built_header_AccessKey method (body : option B) apiKey userAgent :
  Header_Values (built_header method body apiKey userAgent) "AccessKey"
    = if String.eqb apiKey "" then None else Some [apiKey].
Proof.
  unfold built_header.
  destruct (sends_body B method body), (String.eqb apiKey ""),
    (negb (String.eqb userAgent "")); cbn [negb]; header_lookup; reflexivity.
Qed.

Lemma built_header_User_Agent method (body : option B) apiKey userAgent :
  Header_Values (built_header method body apiKey userAgent) "User-Agent"
    = if String.eqb userAgent "" then None else Some [userAgent].
Proof.
  unfold built_header.
  destruct (sends_body B method body), (negb (String.eqb apiKey "")),
    (String.eqb userAgent ""); cbn [negb]; header_lookup; reflexivity.
Qed.

(** C9.  On a request that [NewRequest] returns: [Accept] is
    [application/json]; [Content-Type] is [application/json] exactly when the
    body is not nil and the method is POST, PUT or PATCH, and is absent
    otherwise; in that case, and in no other, the payload is the JSON
    encoding of the body (as the encoder writes it, with a newline after
    it); [AccessKey] is the API key exactly when the key is not empty, and
    absent otherwise; [User-Agent] is the user agent exactly when that is not
    empty, and absent otherwise. *)
Theorem NewRequest_headers method baseURL path body apiKey userAgent
    (req : Request URL) :
  NewRequest URL url_Parse url_ResolveReference url_String B json_Marshal
    method baseURL path body apiKey userAgent = Ok req ->
  let h := req_Header req in
  Header_Get h "Accept" = "application/json" /\
  Header_Values h "Accept" = Some ["application/json"] /\
  (Header_Values h "Content-Type" = Some ["application/json"]
     <-> carries_json method body) /\
  (~ carries_json method body -> Header_Values h "Content-Type" = None) /\
  ((exists b s, body = Some b /\ json_Marshal b = Ok s /\
                req_Body req = Some (s +:+ String "010"%char EmptyString))
     <-> carries_json method body) /\
  (~ carries_json method body -> req_Body req = None) /\
  (Header_Values h "AccessKey" = Some [apiKey] <-> apiKey <> "") /\
  (apiKey = "" -> Header_Values h "AccessKey" = None) /\
  (Header_Values h "User-Agent" = Some [userAgent] <-> userAgent <> "") /\
  (userAgent = "" -> Header_Values h "User-Agent" = None).
Proof.
  intros Hnew h. destruct (NewRequest_Ok _ _ _ _ _ _ _ Hnew) as [Hh Hb].
  subst h. rewrite Hh.
  pose proof (sends_body_carries_json method body) as Hcj.
  unfold Header_Get.
  rewrite built_header_Accept, built_header_Content_Type,
    built_header_AccessKey, built_header_User_Agent.
  split; [reflexivity |]. split; [reflexivity |].
  split; [| split; [| split; [| split; [| split; [| split; [| split]]]]]].
  - destruct (sends_body B method body).
    + split; [intros _; apply Hcj; reflexivity | reflexivity].
    + split; [discriminate |]. intros H. apply Hcj in H. discriminate H.
  - intros Hn. destruct (sends_body B method body); [| reflexivity].
    exfalso. apply Hn, Hcj. reflexivity.
  - destruct body as [b|].
    + destruct (sends_body B method (Some b)).
      * destruct Hb as (s & Hs & Hb). split; [intros _; apply Hcj; reflexivity |].
        intros _. exists b, s. auto.
      * split.
        -- intros (b' & s & _ & _ & Hb'). rewrite Hb in Hb'. discriminate Hb'.
        -- intros H. apply Hcj in H. discriminate H.
    + split.
      * intros (b' & s & Hb' & _). discriminate Hb'.
      * intros [H _]. contradiction.
  - intros Hn. destruct body as [b|]; [| exact Hb].
    destruct (sends_body B method (Some b)); [| exact Hb].
    exfalso. apply Hn, Hcj. reflexivity.
  - destruct (String.eqb_spec apiKey "") as [-> | Hne].
    + split; [discriminate | intros H; contradiction].
    + split; [intros _; exact Hne | reflexivity].
  - intros ->. reflexivity.
  - destruct (String.eqb_spec userAgent "") as [-> | Hne].
    + split; [discriminate | intros H; contradiction].
    + split; [intros _; exact Hne | reflexivity].
  - intros ->. reflexivity.
Qed.

End RequestProps.

(** ** The theorems on the data *)

Lemma Next_success_witness :
  non_terminal mock_start /\
  client (iter mock_start) (world mock_start)
    (Page (cursor mock_start)) (PerPage (cursor mock_start))
    = (tt, (Some mock_page1, None)) /\
  exists b m',
    Next mock_start = (Returns b, m') /\
    currentResponse (iter m') = Some mock_page1 /\
    Page (cursor m') = GoInt.incr (Page (cursor mock_start)) /\
    (GoInt.MinInt <= Page (cursor mock_start) < GoInt.MaxInt ->
       Page (cursor m') = Page (cursor mock_start) + 1) /\
    (b = true <-> (0 < length (Items mock_page1))%nat) /\
    PerPage (cursor m') = PerPage (cursor mock_start) /\
    Error m' = None /\
    world m' = tt /\
    calls m' =
      calls mock_start
        ++ [mkCall (Page (cursor mock_start)) (PerPage (cursor mock_start))
              (Some mock_page1, None)].
Proof.
  assert (H1 : non_terminal mock_start).
  { split; [reflexivity | discriminate]. }
  assert (H2 : client (iter mock_start) (world mock_start)
                 (Page (cursor mock_start)) (PerPage (cursor mock_start))
               = (tt, (Some mock_page1, None))).
  { reflexivity. }
  exact (conj H1 (conj H2 (Next_success mock_start mock_page1 tt H1 H2))).
Defined.

Lemma Next_frozen_after_error_witness :
  Error mock_failed = Some (ErrorString "test error") /\
  Forall (fun rm : outcome bool * machine mockItem unit =>
            fst rm = Returns false /\
            calls (snd rm) = calls mock_failed /\
            world (snd rm) = world mock_failed /\
            Error (snd rm) = Some (ErrorString "test error"))
         (Next_run 3 mock_failed) /\
  length (Next_run 3 mock_failed) = 3%nat /\
  Error (Reset mock_failed) = None.
Proof.
  assert (H : Error mock_failed = Some (ErrorString "test error")).
  { reflexivity. }
  exact (conj H (Next_frozen_after_error mock_failed _ 3 H)).
Defined.

Lemma Next_three_pages_witness :
  map fst (Next_run 4 mock_start)
    = [Returns true; Returns true; Returns true; Returns false] /\
  Error mock_start = None /\
  Forall (fun rm : outcome bool * machine mockItem unit =>
            Error (snd rm) = None)
         (Next_run 4 mock_start) /\
  exists m',
    AllItems 4 mock_start
      = Some (Returns (Items mock_page1 ++ Items mock_page2
                         ++ Items mock_page3, None), m') /\
    length (Items mock_page1 ++ Items mock_page2 ++ Items mock_page3) = 5%nat.
Proof.
  apply (Next_three_pages (clientFn mockPages) tt
           mock_page1 mock_page2 mock_page3); reflexivity.
Defined.


Lemma ParseErrorResponse_generic_error_witness :
  400 <= StatusCode resp_500 /\
  decodes_nothing (Body resp_500) = None /\
  exists e,
    ParseErrorResponse decodes_nothing resp_500 = Some e /\
    e = ErrorString
          ("bunnynet API error: status code " +:+ fmt_d (StatusCode resp_500)) /\
    error_Error e
      = "bunnynet API error: status code " +:+ fmt_d (StatusCode resp_500) /\
    is_ClientError e = false /\
    is_ErrorResponse e = false /\
    ClientError_Unwrap e = None.
Proof.
  assert (H1 : 400 <= StatusCode resp_500) by (cbn; lia).
  assert (H2 : decodes_nothing (Body resp_500) = None) by reflexivity.
  exact (conj H1 (conj H2
           (ParseErrorResponse_generic_error decodes_nothing resp_500 H1 H2))).
Defined.

Lemma NewRequest_headers_witness :
  NewRequest string text_Parse text_ResolveReference text_String
    string text_Marshal
    "POST" "https://api.bunny.net" "/apikey" (Some "{}")
    "test-api-key" "bunnynet-go/1.0.0" = Ok create_key_request /\
  Header_Get (req_Header create_key_request) "accept" = "application/json" /\
  Header_Get (req_Header create_key_request) "Content-Type"
    = "application/json" /\
  Header_Get (req_Header create_key_request) "AccessKey" = "test-api-key" /\
  Header_Get (req_Header create_key_request) "User-Agent"
    = "bunnynet-go/1.0.0" /\
  (Header_Values (req_Header create_key_request) "AccessKey"
     = Some ["test-api-key"] <-> "test-api-key" <> "").
Proof.
  assert (H : NewRequest string text_Parse text_ResolveReference text_String
                string text_Marshal
                "POST" "https://api.bunny.net" "/apikey" (Some "{}")
                "test-api-key" "bunnynet-go/1.0.0" = Ok create_key_request).
  { reflexivity. }
  split; [exact H |].
  split; [reflexivity |]. split; [reflexivity |].
  split; [reflexivity |]. split; [reflexivity |].
  exact (proj1 (proj2 (proj2 (proj2 (proj2 (proj2 (proj2
           (NewRequest_headers string text_Parse text_ResolveReference
              text_String string text_Marshal
              "POST" "https://api.bunny.net" "/apikey" (Some "{}")
              "test-api-key" "bunnynet-go/1.0.0" create_key_request H)))))))).
Defined.

(** ** More on the iterator *)

Section IteratorMore.

Context {T W : Type}.
Implicit Types (m : machine T W) (r : PaginatedResponse T).

Lemma Next_stops_or_fetches m : Next m = (Returns false, m) \/ non_terminal m.
Proof.
  unfold Next, non_terminal.
  destruct (err (iter m)) as [e|]; [left; reflexivity |].
  destruct (currentResponse (iter m)) as [r|] eqn:Hr.
  - destruct (HasMoreItems r) eqn:Hm; [| left; reflexivity].
    right. split; [reflexivity |]. intros r0 [= <-]. exact Hm.
  - right. split; [reflexivity | discriminate].
Qed.

(** What one call of [Next] that goes on to fetch does to the state. *)
Lemma Next_fetch_step m :
  non_terminal m ->
  exists (w' : W) (res : fetch_result T),
    client (iter m) (world m) (Page (cursor m)) (PerPage (cursor m))
      = (w', res) /\
    world (snd (Next m)) = w' /\
    calls (snd (Next m))
      = calls m ++ [mkCall (Page (cursor m)) (PerPage (cursor m)) res] /\
    client (iter (snd (Next m))) = client (iter m) /\
    PerPage (cursor (snd (Next m))) = PerPage (cursor m) /\
    match res with
    | (_, Some e) =>
        fst (Next m) = Returns false /\
        Error (snd (Next m)) = Some e /\
        cursor (snd (Next m)) = cursor m /\
        currentResponse (iter (snd (Next m))) = currentResponse (iter m)
    | (Some r, None) =>
        fst (Next m) = Returns (0 <? Z.of_nat (length (Items r))) /\
        Error (snd (Next m)) = None /\
        Page (cursor (snd (Next m))) = GoInt.incr (Page (cursor m)) /\
        currentResponse (iter (snd (Next m))) = Some r
    | (None, None) => fst (Next m) = Panics
    end.
Proof.
  intros Hnt.
  destruct (client (iter m) (world m) (Page (cursor m)) (PerPage (cursor m)))
    as [w' [[r|] [e|]]] eqn:Hc; exists w'; eexists; (split; [reflexivity |]).
  - rewrite (Next_err_eq m e _ w' Hnt Hc). cbn. repeat split; reflexivity.
  - rewrite (Next_ok_eq m r w' Hnt Hc). cbn. repeat split; reflexivity.
  - rewrite (Next_err_eq m e _ w' Hnt Hc). cbn. repeat split; reflexivity.
  - pose proof (Next_nil_eq m w' Hnt Hc) as Hp.
    rewrite (Next_fetches m Hnt) in *. unfold call_client, cursor in *.
    cbn zeta in *. rewrite Hc in *. cbn. repeat split; reflexivity.
Qed.

(** X1.  Whenever [Next] returns true, the page it has just fetched is the
    current one and has items: [Items] is not empty, [Error] is nil, and the
    fetch function was called exactly once. *)
Theorem Next_true_has_items m :
  fst (Next m) = Returns true ->
  IterItems (snd (Next m)) <> [] /\
  Error (snd (Next m)) = None /\
  length (calls (snd (Next m))) = S (length (calls m)).
Proof.
  intros Ht. destruct (Next_stops_or_fetches m) as [Hs | Hnt].
  { rewrite Hs in Ht. discriminate Ht. }
  destruct (Next_fetch_step m Hnt)
    as (w' & [[r|] [e|]] & _ & _ & Hcalls & _ & _ & Hres).
  - destruct Hres as [Hf _]. rewrite Hf in Ht. discriminate Ht.
  - destruct Hres as (Hf & He & _ & Hr). rewrite Hf in Ht.
    injection Ht as Ht. apply Z.ltb_lt in Ht.
    split; [| split; [exact He |]].
    + unfold IterItems. rewrite Hr. destruct (Items r); [cbn in Ht; lia |].
      discriminate.
    + rewrite Hcalls, length_app. cbn. lia.
  - destruct Hres as [Hf _]. rewrite Hf in Ht. discriminate Ht.
  - rewrite Hres in Ht. discriminate Ht.
Qed.


(** X3.  When the page information of the current page says it is the last
    page, every further [Next] returns false and changes nothing: the fetch
    function is not called again. *)
Theorem Next_stops_at_last_page m (info : PageInfo) (n : nat) :
  IterPageInfo m = Some info ->
  IsLastPage info = true ->
  Next_run n m = replicate n (Returns false, m).
Proof.
  unfold IterPageInfo, PageInfoFromResponse, IsLastPage.
  destruct (currentResponse (iter m)) as [r|] eqn:Hr; [| discriminate].
  intros [= <-]. cbn. intros Hlast. apply negb_true_iff in Hlast.
  destruct (Next_exhausted m r Hr Hlast) as (b & HN & ->).
  induction n as [| n IH]; [reflexivity |].
  cbn [Next_run replicate]. rewrite HN. cbn [snd]. rewrite IH. reflexivity.
Qed.

Lemma run_op_client m o : client (iter (run_op m o)) = client (iter m).
Proof.
  destruct o; [| reflexivity]. cbn [run_op].
  destruct (Next_stops_or_fetches m) as [-> | Hnt]; [reflexivity |].
  destruct (Next_fetch_step m Hnt) as (w' & res & _ & _ & _ & Hcl & _).
  exact Hcl.
Qed.

Lemma run_ops_client ops m : client (iter (run_ops ops m)) = client (iter m).
Proof.
  revert m. induction ops as [| o ops IH]; intros m; [reflexivity |].
  rewrite run_ops_cons, IH. apply run_op_client.
Qed.

Lemma run_op_calls m o (P : call T -> Prop) :
  (forall res, P (mkCall (Page (cursor m)) (PerPage (cursor m)) res)) ->
  Forall P (calls m) ->
  Forall P (calls (run_op m o)) /\
  (length (calls (run_op m o))
   <= length (calls m) + match o with OpNext => 1 | OpReset => 0 end)%nat.
Proof.
  intros HP Hall. destruct o; cbn [run_op].
  - destruct (Next_stops_or_fetches m) as [-> | Hnt]; [cbn; split; [auto | lia] |].
    destruct (Next_fetch_step m Hnt) as (w' & res & _ & _ & Hcalls & _).
    rewrite Hcalls. split.
    + apply Forall_app. split; [exact Hall |]. constructor; [apply HP | constructor].
    + rewrite length_app. cbn. lia.
  - cbn. split; [exact Hall | lia].
Qed.

(** X4.  In every run of [Next] and [Reset] on an iterator made by
    [NewPageIterator], the fetch function is only ever asked for the page
    size that the constructor clamped into 1..1000, and it is called at most
    once for each [Next]. *)
Theorem run_calls_perPage (c : fetch_fn T W) (page perPage : Z) (w : W)
    (ops : list iter_op) :
  let m := run_ops ops (start c page perPage w) in
  Forall (fun cl : call T =>
            call_perPage cl = PerPage (WithPerPage NewPagination perPage) /\
            1 <= call_perPage cl <= 1000)
         (calls m) /\
  (length (calls m) <= count_Next ops)%nat.
Proof.
  set (pp := PerPage (WithPerPage NewPagination perPage)).
  assert (Hpp : 1 <= pp <= 1000) by apply WithPerPage_bounds.
  assert (Hgen : forall ops m,
             PerPage (cursor m) = pp ->
             Forall (fun cl : call T =>
                       call_perPage cl = pp /\ 1 <= call_perPage cl <= 1000)
                    (calls m) ->
             Forall (fun cl : call T =>
                       call_perPage cl = pp /\ 1 <= call_perPage cl <= 1000)
                    (calls (run_ops ops m)) /\
             (length (calls (run_ops ops m))
              <= length (calls m) + count_Next ops)%nat).
  { clear ops. induction ops as [| o ops IH]; intros m Hm Hall.
    - cbn. split; [exact Hall | lia].
    - rewrite run_ops_cons.
      destruct (run_op_calls m o _
                  (fun res => conj (Hm : call_perPage (mkCall _ _ res) = pp)
                                (eq_ind_r (fun x => 1 <= x <= 1000) Hpp Hm))
                  Hall) as [Hall' Hlen].
      destruct (IH (run_op m o)) as [Hall'' Hlen'].
      + rewrite run_op_PerPage. exact Hm.
      + exact Hall'.
      + split; [exact Hall'' |]. destruct o; cbn [count_Next] in *; lia. }
  intros m. destruct (Hgen ops (start c page perPage w)) as [Hall Hlen].
  - reflexivity.
  - constructor.
  - split; [exact Hall | exact Hlen].
Qed.

(** X5.  [Reset] after any run of [Next] and [Reset] puts the iterator back
    into the state [NewPageIterator] makes for page 1 and the same page
    size: same fetch function, page 1, the clamped page size, no response,
    no error. *)
Theorem Reset_restores_fresh (c : fetch_fn T W) (page perPage : Z) (w : W)
    (ops : list iter_op) :
  iter (Reset (run_ops ops (start c page perPage w)))
    = NewPageIterator c 1 perPage.
Proof.
  pose proof (run_ops_client ops (start c page perPage w)) as Hc.
  pose proof (run_ops_PerPage ops (start c page perPage w)) as Hp.
  unfold Reset, set_iter, with_err, with_currentResponse, with_Page,
    NewPageIterator, cursor in *. cbn in *.
  rewrite Hc, Hp. reflexivity.
Qed.

End IteratorMore.

(** ** The calls [AllItems] makes *)

Section AllItemsCalls.

Context {T W : Type}.
Implicit Types (m : machine T W) (r : PaginatedResponse T).

Lemma fetch_seq_length (c : fetch_fn T W) (k : nat) :
  forall (w : W) (page perPage : Z),
    length (fetch_seq c k w page perPage) = k.
Proof.
  induction k as [| k IH]; intros w page perPage; [reflexivity |].
  cbn [fetch_seq]. destruct (c w page perPage) as [w' res].
  cbn [length]. rewrite IH. reflexivity.
Qed.

Lemma calls_of_perPage (answers : list (fetch_result T)) :
  forall page perPage,
    Forall (fun cl : call T => call_perPage cl = perPage)
           (calls_of page perPage answers).
Proof.
  induction answers as [| a rest IH]; intros page perPage; constructor.
  - reflexivity.
  - apply IH.
Qed.

Lemma calls_of_pages (answers : list (fetch_result T)) :
  forall page perPage,
    GoInt.MinInt <= page ->
    page + Z.of_nat (length answers) <= GoInt.MaxInt ->
    map call_page (calls_of page perPage answers)
      = map (fun i => page + Z.of_nat i) (seq 0 (length answers)).
Proof.
  induction answers as [| a rest IH]; intros page perPage Hlo Hhi;
    [reflexivity |].
  cbn [calls_of map length seq call_page]. f_equal; [lia |].
  cbn [length] in Hhi.
  rewrite GoIntFacts.incr_small by (unfold GoInt.MinInt, GoInt.MaxInt in *; lia).
  assert (Hlo' : GoInt.MinInt <= page + 1) by lia.
  rewrite (IH (page + 1) perPage Hlo') by lia. rewrite <- seq_shift, map_map.
  apply map_ext. intros i. lia.
Qed.

Lemma AllItems_loop_calls (fuel : nat) :
  forall (acc : list T) m (o : outcome (list T)) m',
    AllItems_loop fuel acc m = Some (o, m') ->
    exists k : nat,
      (k <= fuel)%nat /\
      calls m'
        = calls m
            ++ calls_of (Page (cursor m)) (PerPage (cursor m))
                 (fetch_seq (client (iter m)) k (world m)
                    (Page (cursor m)) (PerPage (cursor m))).
Proof.
  induction fuel as [| fuel IH]; intros acc m o m' Hl; [discriminate Hl |].
  cbn [AllItems_loop] in Hl.
  destruct (Next_stops_or_fetches m) as [Hs | Hnt].
  { rewrite Hs in Hl. injection Hl as <- <-.
    exists O. split; [lia |]. cbn. rewrite app_nil_r. reflexivity. }
  destruct (Next_fetch_step m Hnt)
    as (w' & res & Hc & Hw & Hcalls & Hcl & Hpp & Hres).
  assert (Hone : calls (snd (Next m))
                 = calls m
                     ++ calls_of (Page (cursor m)) (PerPage (cursor m))
                          (fetch_seq (client (iter m)) 1 (world m)
                             (Page (cursor m)) (PerPage (cursor m)))).
  { cbn [fetch_seq]. rewrite Hc. exact Hcalls. }
  destruct (Next m) as [[[|]|] m1] eqn:HN; cbn [fst snd] in *.
  - (* true: the loop goes on *)
    assert (Hpage : Page (cursor m1) = GoInt.incr (Page (cursor m))).
    { destruct res as [[r|] [e|]].
      - destruct Hres as [Hf _]. discriminate Hf.
      - destruct Hres as (_ & _ & Hpage & _). exact Hpage.
      - destruct Hres as [Hf _]. discriminate Hf.
      - discriminate Hres. }
    destruct (IH _ _ _ _ Hl) as (k & Hk & Hcalls').
    exists (S k). split; [lia |].
    rewrite Hcalls', Hcalls, Hcl, Hpp, Hw, Hpage, <- app_assoc.
    cbn [fetch_seq]. rewrite Hc. reflexivity.
  - injection Hl as <- <-. exists 1%nat. split; [lia | exact Hone].
  - injection Hl as <- <-. exists 1%nat. split; [lia | exact Hone].
Qed.

(** X6.  [AllItems] asks the fetch function for the pages 1, 2, ..., k in
    this order, each once, all at the page size of the iterator, and for
    nothing else; [k] is at most the number of rounds of its loop. *)
Theorem AllItems_calls m (fuel : nat)
    (o : outcome (list T * option error)) m' :
  AllItems fuel m = Some (o, m') ->
  Z.of_nat fuel < GoInt.MaxInt ->
  exists (k : nat) (new_calls : list (call T)),
    (k <= fuel)%nat /\
    calls m' = calls m ++ new_calls /\
    map call_page new_calls = map Z.of_nat (seq 1 k) /\
    Forall (fun cl : call T => call_perPage cl = PerPage (cursor m)) new_calls /\
    map call_result new_calls
      = fetch_seq (client (iter m)) k (world m) 1 (PerPage (cursor m)).
Proof.
  intros HA Hfuel. unfold AllItems in HA.
  destruct (AllItems_loop fuel [] (Reset m)) as [[o1 m1]|] eqn:Hl;
    [| discriminate HA].
  assert (Hm : m1 = m').
  { destruct o1 as [items|]; [destruct (Error m1) |]; injection HA as _ <-;
      reflexivity. }
  subst m1. clear HA.
  destruct (AllItems_loop_calls fuel _ _ _ _ Hl) as (k & Hk & Hcalls).
  change (calls (Reset m)) with (calls m) in Hcalls.
  change (Page (cursor (Reset m))) with 1 in Hcalls.
  change (PerPage (cursor (Reset m))) with (PerPage (cursor m)) in Hcalls.
  change (client (iter (Reset m))) with (client (iter m)) in Hcalls.
  change (world (Reset m)) with (world m) in Hcalls.
  exists k, (calls_of 1 (PerPage (cursor m))
               (fetch_seq (client (iter m)) k (world m) 1 (PerPage (cursor m)))).
  split; [exact Hk |]. split; [exact Hcalls |]. split; [| split].
  - rewrite calls_of_pages; rewrite ?fetch_seq_length;
      unfold GoInt.MinInt, GoInt.MaxInt in *; try lia.
    rewrite <- seq_shift, map_map. apply map_ext. intros i. lia.
  - apply calls_of_perPage.
  - generalize (fetch_seq (client (iter m)) k (world m) 1 (PerPage (cursor m))).
    generalize 1. generalize (PerPage (cursor m)).
    intros pp p l. revert p. induction l as [| a l IHl]; intros p;
      [reflexivity |].
    cbn [calls_of map call_result]. rewrite IHl. reflexivity.
Qed.

Lemma Next_same_but_log m1 m2 :
  same_but_log m1 m2 ->
  fst (Next m1) = fst (Next m2) /\ same_but_log (snd (Next m1)) (snd (Next m2)).
Proof.
  destruct m1 as [i1 w1 l1], m2 as [i2 w2 l2]. intros [Hi Hw].
  cbn in Hi, Hw. subst i2 w2. unfold Next, call_client, same_but_log. cbn.
  destruct (err i1); [split; [reflexivity | split; reflexivity] |].
  destruct (match currentResponse i1 with
            | Some r => negb (HasMoreItems r) | None => false end);
    [split; [reflexivity | split; reflexivity] |].
  destruct (client i1 w1 _ _) as [w' [[r|] [e|]]]; cbn;
    (split; [reflexivity | split; reflexivity]).
Qed.

Lemma AllItems_loop_same_but_log (fuel : nat) :
  forall (acc : list T) m1 m2,
    same_but_log m1 m2 ->
    fst <$> AllItems_loop fuel acc m1 = fst <$> AllItems_loop fuel acc m2 /\
    (Error ∘ snd) <$> AllItems_loop fuel acc m1
      = (Error ∘ snd) <$> AllItems_loop fuel acc m2.
Proof.
  induction fuel as [| fuel IH]; intros acc m1 m2 Hs; [split; reflexivity |].
  cbn [AllItems_loop].
  destruct (Next_same_but_log m1 m2 Hs) as [Hf Hs'].
  destruct (Next m1) as [o1 n1], (Next m2) as [o2 n2]. cbn [fst snd] in *.
  subst o2. pose proof Hs' as [Hi _].
  destruct o1 as [[|]|].
  - unfold IterItems. rewrite Hi. apply IH. exact Hs'.
  - cbn. unfold Error. rewrite Hi. split; reflexivity.
  - cbn. unfold Error. rewrite Hi. split; reflexivity.
Qed.

Lemma AllItems_same_client m1 m2 (fuel : nat) :
  client (iter m1) = client (iter m2) ->
  PerPage (cursor m1) = PerPage (cursor m2) ->
  world m1 = world m2 ->
  fst <$> AllItems fuel m1 = fst <$> AllItems fuel m2.
Proof.
  intros Hc Hp Hw.
  assert (Hs : same_but_log (Reset m1) (Reset m2)).
  { unfold same_but_log, Reset, set_iter, with_err, with_currentResponse,
      with_Page, cursor in *. cbn. rewrite Hc, Hp, Hw. split; reflexivity. }
  destruct (AllItems_loop_same_but_log fuel [] _ _ Hs) as [Ho He].
  unfold AllItems.
  destruct (AllItems_loop fuel [] (Reset m1)) as [[o1 n1]|],
           (AllItems_loop fuel [] (Reset m2)) as [[o2 n2]|];
    cbn in Ho, He; try discriminate Ho; [| reflexivity].
  injection Ho as <-. injection He as He. rewrite He.
  destruct o1 as [items|]; [destruct (Error n2) |]; reflexivity.
Qed.

End AllItemsCalls.

(** X7.  For a fetch function with no state of its own, [AllItems] after any
    run of [Next] and [Reset] returns what it returns on a fresh iterator of
    the same page size, whatever page either was made at. *)
Theorem AllItems_after_partial_run {T} (c : fetch_fn T unit)
    (page page' perPage : Z) (ops : list iter_op) (fuel : nat) :
  fst <$> AllItems fuel (run_ops ops (start c page perPage tt))
    = fst <$> AllItems fuel (start c page' perPage tt).
Proof.
  apply AllItems_same_client.
  - rewrite run_ops_client. reflexivity.
  - rewrite run_ops_PerPage. reflexivity.
  - destruct (world (run_ops ops (start c page perPage tt))). reflexivity.
Qed.

(** ** Page information and query parameters *)

(** X8.  For a page number from 1 up to (not including) the largest [int],
    the sentinel 0 is not a page: [NextPage] is 0 exactly on the last page
    and is the next page number otherwise, [PreviousPage] is 0 exactly on
    the first page and is the page number before otherwise. *)
Theorem PageInfo_sentinels (p : PageInfo) :
  1 <= pi_CurrentPage p < GoInt.MaxInt ->
  (NextPage p = 0 <-> IsLastPage p = true) /\
  (IsLastPage p = false -> NextPage p = pi_CurrentPage p + 1) /\
  (PreviousPage p = 0 <-> IsFirstPage p = true) /\
  (IsFirstPage p = false -> PreviousPage p = pi_CurrentPage p - 1).
Proof.
  intros Hp. unfold NextPage, PreviousPage, IsLastPage, IsFirstPage, GoInt.add.
  assert (Hn : GoInt.wrap (pi_CurrentPage p + 1) = pi_CurrentPage p + 1).
  { apply GoIntFacts.wrap_in_range.
    unfold GoInt.in_range, GoInt.MinInt, GoInt.MaxInt in *. lia. }
  assert (Hv : GoInt.wrap (pi_CurrentPage p + -1) = pi_CurrentPage p - 1).
  { rewrite GoIntFacts.wrap_in_range; [lia |].
    unfold GoInt.in_range, GoInt.MinInt, GoInt.MaxInt in *. lia. }
  rewrite Hn, Hv.
  destruct (pi_HasMoreItems p); cbn [negb];
    destruct (Z.leb_spec (pi_CurrentPage p) 1);
    repeat split; intros; try reflexivity; try discriminate; try lia.
Qed.

(** X9.  A cursor that went through [WithPage] and [WithPerPage] always
    gives both query parameters, [page] and [perPage], as the decimal
    numbers of the clamped values, and nothing else. *)
Theorem ToQueryParams_clamped (p : Pagination) (page perPage : Z) :
  let q := WithPerPage (WithPage p page) perPage in
  Pagination_ToQueryParams (Some q)
    = <["perPage" := strconv_Itoa (PerPage q)]>
        (<["page" := strconv_Itoa (Page q)]> ∅) /\
  1 <= Page q /\ 1 <= PerPage q <= 1000.
Proof.
  intros q.
  assert (Hp : 1 <= Page q).
  { unfold q. rewrite WithPerPage_keeps_Page. apply WithPage_ge_1. }
  assert (Hpp : 1 <= PerPage q <= 1000) by apply WithPerPage_bounds.
  split; [| split; assumption].
  unfold Pagination_ToQueryParams.
  destruct (Z.gtb_spec (Page q) 0); [| lia].
  destruct (Z.gtb_spec (PerPage q) 0); [| lia].
  reflexivity.
Qed.

(** X10.  The query parameters tell the cursor: two cursors with page and
    page size of at least 1 that give the same parameters are the same. *)
Theorem ToQueryParams_inj (p1 p2 : Pagination) :
  1 <= Page p1 -> 1 <= PerPage p1 -> 1 <= Page p2 -> 1 <= PerPage p2 ->
  Pagination_ToQueryParams (Some p1) = Pagination_ToQueryParams (Some p2) ->
  p1 = p2.
Proof.
  intros H1 H2 H3 H4. unfold Pagination_ToQueryParams.
  destruct (Z.gtb_spec (Page p1) 0); [| lia].
  destruct (Z.gtb_spec (PerPage p1) 0); [| lia].
  destruct (Z.gtb_spec (Page p2) 0); [| lia].
  destruct (Z.gtb_spec (PerPage p2) 0); [| lia].
  intros Heq.
  assert (Hpage : strconv_Itoa (Page p1) = strconv_Itoa (Page p2)).
  { apply (f_equal (fun m : gmap string string => m !! "page")) in Heq.
    rewrite (lookup_insert_ne _ "perPage" "page") in Heq by discriminate.
    rewrite (lookup_insert_ne (<["page":=strconv_Itoa (Page p2)]> ∅)
               "perPage" "page") in Heq by discriminate.
    rewrite !lookup_insert_eq in Heq. congruence. }
  assert (Hper : strconv_Itoa (PerPage p1) = strconv_Itoa (PerPage p2)).
  { apply (f_equal (fun m : gmap string string => m !! "perPage")) in Heq.
    rewrite !lookup_insert_eq in Heq. congruence. }
  unfold strconv_Itoa in *.
  apply (inj pretty) in Hpage. apply (inj pretty) in Hper.
  destruct p1, p2. cbn in *. congruence.
Qed.

(** ** Adding query parameters *)

Section AddQueryProps.

Variable URL : Type.
Variable url_Query : URL -> Values.
Variable url_set_RawQuery : URL -> string -> URL.
Variable Values_Encode : Values -> string.
Variable S : Type.
Variable query_Values : S -> result Values.
Variable range : forall A : Type, gmap string A -> list (string * A).
Hypothesis range_entries :
  forall (A : Type) (m : gmap string A), range A m ≡ₚ map_to_list m.

Lemma Values_Add_lookup (q : Values) key value k :
  Values_Add q key value !! k
    = if decide (key = k) then Some (default [] (q !! key) ++ [value])
      else q !! k.
Proof. unfold Values_Add. apply lookup_insert. Qed.

Lemma foldl_Add_lookup (l : list (string * string)) :
  NoDup l.*1 ->
  forall (q : Values) k,
    foldl (fun q kv => Values_Add q (fst kv) (snd kv)) q l !! k
      = match (list_to_map l : gmap string string) !! k with
        | Some v => Some (default [] (q !! k) ++ [v])
        | None => q !! k
        end.
Proof.
  induction l as [| [k0 v0] l IH]; intros Hnd q k.
  - cbn. rewrite lookup_empty. reflexivity.
  - cbn [fmap list_fmap fst] in Hnd. apply NoDup_cons in Hnd as [Hk0 Hnd].
    cbn [foldl fst snd list_to_map foldr]. rewrite (IH Hnd).
    rewrite Values_Add_lookup, lookup_insert.
    destruct (decide (k0 = k)) as [<- | Hne].
    + apply not_elem_of_list_to_map_1 in Hk0.
      change (@foldr (gmap string string) (string * string)
                (fun p => <[p.1:=p.2]>) ∅ l) with
        (list_to_map l : gmap string string).
      rewrite Hk0. reflexivity.
    + reflexivity.
Qed.

Lemma add_each_lookup (q : Values) (m : gmap string string) k :
  add_each range q m !! k
    = match m !! k with
      | Some v => Some (default [] (q !! k) ++ [v])
      | None => q !! k
      end.
Proof.
  unfold add_each. pose proof (range_entries string m) as Hperm.
  assert (Hnd : NoDup (range string m).*1).
  { rewrite Hperm. apply NoDup_fst_map_to_list. }
  rewrite (foldl_Add_lookup _ Hnd).
  rewrite (list_to_map_proper _ _ Hnd Hperm), list_to_map_to_list.
  reflexivity.
Qed.

(** X11.  For parameters with a [ToQueryParams] method, [AddQueryParams]
    never fails and only adds: method, header and body stay, and the new
    query holds, for each key of the parameters, the values the URL had for
    it followed by the new value, and for every other key what the URL had.
    The order in which the map is gone through does not show. *)
Theorem AddQueryParams_adds (req : Request URL) (m : gmap string string) :
  exists q' : Values,
    AddQueryParams URL url_Query url_set_RawQuery Values_Encode S query_Values
      range req (ParamsRequest m)
      = (None, set_RawQuery URL url_set_RawQuery req (Values_Encode q')) /\
    (forall k v, m !! k = Some v ->
       q' !! k = Some (default [] (url_Query (req_URL req) !! k) ++ [v])) /\
    (forall k, m !! k = None -> q' !! k = url_Query (req_URL req) !! k) /\
    (forall k vs, url_Query (req_URL req) !! k = Some vs ->
       exists more, q' !! k = Some (vs ++ more)).
Proof.
  exists (add_each range (url_Query (req_URL req)) m).
  split; [reflexivity |]. split; [| split].
  - intros k v Hk. rewrite add_each_lookup, Hk. reflexivity.
  - intros k Hk. rewrite add_each_lookup, Hk. reflexivity.
  - intros k vs Hq. rewrite add_each_lookup, Hq.
    destruct (m !! k) as [v|]; [exists [v] | exists []]; cbn;
      rewrite ?app_nil_r; reflexivity.
Qed.

Lemma range_empty (A : Type) : range A ∅ = [].
Proof.
  apply Permutation_nil_r. rewrite range_entries, map_to_list_empty.
  reflexivity.
Qed.

(** X12.  Nil parameters leave the request as it is.  A nil [*Pagination],
    and one with page and page size 0, add no parameter: the query is
    written back with the values it had. *)
Theorem AddQueryParams_nothing_to_add (req : Request URL) :
  AddQueryParams URL url_Query url_set_RawQuery Values_Encode S query_Values
    range req ParamsNil = (None, req) /\
  AddQueryParams URL url_Query url_set_RawQuery Values_Encode S query_Values
    range req (ParamsRequest (Pagination_ToQueryParams None))
    = (None, set_RawQuery URL url_set_RawQuery req
               (Values_Encode (url_Query (req_URL req)))) /\
  AddQueryParams URL url_Query url_set_RawQuery Values_Encode S query_Values
    range req (ParamsRequest (Pagination_ToQueryParams (Some (mkPagination 0 0))))
    = (None, set_RawQuery URL url_set_RawQuery req
               (Values_Encode (url_Query (req_URL req)))).
Proof.
  split; [reflexivity |].
  split; cbn; unfold add_each; rewrite range_empty; reflexivity.
Qed.

Lemma foldl_Add_values (vs : list string) :
  forall (q : Values) key k,
    foldl (fun q x => Values_Add q key x) q vs !! k
      = if decide (key = k)
        then match vs with
             | [] => q !! k
             | _ :: _ => Some (default [] (q !! k) ++ vs)
             end
        else q !! k.
Proof.
  induction vs as [| x vs IH]; intros q key k.
  - cbn. destruct (decide (key = k)); reflexivity.
  - cbn [foldl]. rewrite IH, Values_Add_lookup.
    destruct (decide (key = k)) as [<- | Hne]; [| reflexivity].
    destruct vs as [| y vs]; [reflexivity |].
    cbn. rewrite <- app_assoc. reflexivity.
Qed.

Lemma foldl_Add_all_lookup (l : list (string * list string)) :
  NoDup l.*1 ->
  forall (q : Values) k,
    foldl (fun q kvs => foldl (fun q x => Values_Add q (fst kvs) x) q (snd kvs))
          q l !! k
      = match (list_to_map l : Values) !! k with
        | Some (x :: xs) => Some (default [] (q !! k) ++ x :: xs)
        | _ => q !! k
        end.
Proof.
  induction l as [| [k0 vs0] l IH]; intros Hnd q k.
  - cbn. rewrite lookup_empty. reflexivity.
  - cbn [fmap list_fmap fst] in Hnd. apply NoDup_cons in Hnd as [Hk0 Hnd].
    cbn [foldl fst snd list_to_map foldr]. rewrite (IH Hnd).
    rewrite foldl_Add_values, lookup_insert.
    change (@foldr Values (string * list string)
              (fun p => <[p.1:=p.2]>) ∅ l) with (list_to_map l : Values).
    destruct (decide (k0 = k)) as [<- | Hne]; [| reflexivity].
    apply not_elem_of_list_to_map_1 in Hk0. rewrite Hk0.
    destruct vs0; reflexivity.
Qed.

(** X13.  For a struct with [url] tags: when its encoding fails,
    [AddQueryParams] returns a [ClientError] around the failure and leaves
    the request as it is; otherwise it only adds: for each key the values
    the URL had, followed by the values of the struct in their order; a key
    without values adds nothing. *)
Theorem AddQueryParams_struct (req : Request URL) (s : S) :
  match query_Values s with
  | Fail e =>
      AddQueryParams URL url_Query url_set_RawQuery Values_Encode S
        query_Values range req (ParamsStruct s)
        = (Some (ClientError "failed to encode query parameters" (Some e)), req)
  | Ok v =>
      exists q' : Values,
        AddQueryParams URL url_Query url_set_RawQuery Values_Encode S
          query_Values range req (ParamsStruct s)
          = (None, set_RawQuery URL url_set_RawQuery req (Values_Encode q')) /\
        forall k,
          q' !! k = match v !! k with
                    | Some (x :: xs) =>
                        Some (default [] (url_Query (req_URL req) !! k)
                                ++ x :: xs)
                    | _ => url_Query (req_URL req) !! k
                    end
  end.
Proof.
  unfold AddQueryParams. destruct (query_Values s) as [v | e]; [| reflexivity].
  eexists. split; [reflexivity |]. intros k. unfold add_all.
  pose proof (range_entries (list string) v) as Hperm.
  assert (Hnd : NoDup (range (list string) v).*1).
  { rewrite Hperm. apply NoDup_fst_map_to_list. }
  rewrite (foldl_Add_all_lookup _ Hnd).
  rewrite (list_to_map_proper _ _ Hnd Hperm), list_to_map_to_list.
  reflexivity.
Qed.

End AddQueryProps.

(** ** More on decoding a response *)

Section DecoderMore.

Variable json_Decode_ErrorResponse : body -> option (string * string * string).
Variable V : Type.
Variable json_Unmarshal : string -> V -> V * option error.
Variable Req : Type.
Variable http_Do : Req -> Response + error.

Lemma ParseErrorResponse_None resp :
  ParseErrorResponse json_Decode_ErrorResponse resp = None
  <-> 200 <= StatusCode resp < 300.
Proof.
  unfold ParseErrorResponse.
  destruct (Z.geb_spec (StatusCode resp) 200), (Z.ltb_spec (StatusCode resp) 300);
    cbn [andb]; try (split; [lia | reflexivity]);
    destruct (json_Decode_ErrorResponse (Body resp)) as [[[k f] msg]|];
    (split; [discriminate | lia]).
Qed.

Lemma ParseErrorResponse_not_ClientError_any resp e :
  ParseErrorResponse json_Decode_ErrorResponse resp = Some e ->
  is_ClientError e = false.
Proof.
  unfold ParseErrorResponse.
  destruct ((StatusCode resp >=? 200) && (StatusCode resp <? 300));
    [discriminate |].
  destruct (json_Decode_ErrorResponse (Body resp)) as [[[k f] msg]|];
    intros [= <-]; reflexivity.
Qed.

(** X14.  [ParseErrorResponse] returns nil exactly for the statuses 200 to
    299; every other status, also one below 200 or from 300 to 399, gives an
    error.  The error is never a [ClientError]: it is the decoded
    [ErrorResponse] carrying the status code of the response, whose text is
    "[status] key: message (field)", or the plain error. *)
Theorem ParseErrorResponse_kinds resp :
  (ParseErrorResponse json_Decode_ErrorResponse resp = None
   <-> 200 <= StatusCode resp < 300) /\
  (forall e,
      ParseErrorResponse json_Decode_ErrorResponse resp = Some e ->
      is_ClientError e = false /\
      match json_Decode_ErrorResponse (Body resp) with
      | Some (key, field, message) =>
          e = ErrorResponse key field message (StatusCode resp) /\
          error_Error e
            = "[" +:+ fmt_d (StatusCode resp) +:+ "] " +:+ key +:+ ": "
                +:+ message +:+ " (" +:+ field +:+ ")"
      | None => is_ErrorResponse e = false
      end).
Proof.
  split; [apply ParseErrorResponse_None |].
  intros e He. split; [exact (ParseErrorResponse_not_ClientError_any resp e He) |].
  unfold ParseErrorResponse in He.
  destruct ((StatusCode resp >=? 200) && (StatusCode resp <? 300));
    [discriminate |].
  destruct (json_Decode_ErrorResponse (Body resp)) as [[[k f] msg]|];
    injection He as <-; [split |]; reflexivity.
Qed.

(** X15.  [DoRequest] returns a nil error exactly when the transport gave a
    response with a status below 400.  It returns no response exactly when
    the transport failed, and then the error is a [ClientError] around the
    transport's error; an error that comes with a response is never a
    [ClientError]. *)
Theorem DoRequest_error_classes (req : Req) :
  (snd (DoRequest json_Decode_ErrorResponse Req http_Do req) = None
   <-> exists resp, http_Do req = inl resp /\ StatusCode resp < 400) /\
  (fst (DoRequest json_Decode_ErrorResponse Req http_Do req) = None
   <-> exists te, http_Do req = inr te) /\
  (forall te, http_Do req = inr te ->
     snd (DoRequest json_Decode_ErrorResponse Req http_Do req)
       = Some (ClientError "failed to send request" (Some te))) /\
  (forall e,
     snd (DoRequest json_Decode_ErrorResponse Req http_Do req) = Some e ->
     (is_ClientError e = true <-> exists te, http_Do req = inr te)).
Proof.
  unfold DoRequest. destruct (http_Do req) as [resp | te] eqn:Hdo.
  - destruct (Z.geb_spec (StatusCode resp) 400) as [Hge | Hlt]; cbn [fst snd].
    + destruct (ParseErrorResponse_is_error json_Decode_ErrorResponse resp)
        as [e He]; [lia |].
      split; [| split; [| split]].
      * rewrite He. split; [discriminate |].
        intros (resp' & [= <-] & Hs). lia.
      * split; [discriminate | intros [te' Hte]; discriminate Hte].
      * intros te' Hte. discriminate Hte.
      * intros e' He'. rewrite He in He'. injection He' as <-.
        rewrite (ParseErrorResponse_not_ClientError_any resp e He).
        split; [discriminate | intros [te' Hte]; discriminate Hte].
    + split; [| split; [| split]].
      * split; [intros _; exists resp; split; [reflexivity | lia] | reflexivity].
      * split; [discriminate | intros [te' Hte]; discriminate Hte].
      * intros te' Hte. discriminate Hte.
      * intros e He. discriminate He.
  - cbn [fst snd]. split; [| split; [| split]].
    + split; [discriminate | intros (resp & Hr & _); discriminate Hr].
    + split; [intros _; exists te; reflexivity | reflexivity].
    + intros te' [= <-]. reflexivity.
    + intros e [= <-]. cbn. split; [intros _; exists te |]; reflexivity.
Qed.

(** X16.  [ParseResponse] leaves the target as it was at status 204, at a
    status of 400 or more, when the body cannot be read, and when the target
    is nil.  It returns a nil error exactly at status 204 or, below 400,
    when the body reads and decodes; below 400 every error it returns is a
    [ClientError] around the failure of the read or of the decoding. *)
Theorem ParseResponse_target_and_errors resp (x : V) :
  (StatusCode resp = 204 \/ 400 <= StatusCode resp
   \/ body_read_err (Body resp) <> None ->
   snd (ParseResponse json_Decode_ErrorResponse V json_Unmarshal resp (Some x))
     = Some x) /\
  ParseResponse json_Decode_ErrorResponse V json_Unmarshal resp None
    = (None, None) /\
  (fst (ParseResponse json_Decode_ErrorResponse V json_Unmarshal resp (Some x))
     = None
   <-> StatusCode resp = 204 \/
       (StatusCode resp < 400 /\ body_read_err (Body resp) = None /\
        snd (json_Unmarshal (body_data (Body resp)) x) = None)) /\
  (forall e,
     StatusCode resp < 400 ->
     fst (ParseResponse json_Decode_ErrorResponse V json_Unmarshal resp (Some x))
       = Some e ->
     exists message cause, e = ClientError message (Some cause)).
Proof.
  unfold ParseResponse, StatusNoContent, io_ReadAll.
  destruct (Z.eqb_spec (StatusCode resp) 204) as [H204 | Hn204].
  { split; [reflexivity |]. split; [reflexivity |].
    split; [split; [auto | reflexivity] |]. intros e _ He. discriminate He. }
  split; [| split; [reflexivity |]].
  - intros [H | [H | H]]; [contradiction | |].
    + destruct (Z.geb_spec (StatusCode resp) 400); [reflexivity | lia].
    + destruct (StatusCode resp >=? 400); [reflexivity |].
      destruct (body_read_err (Body resp)); [reflexivity | contradiction].
  - destruct (Z.geb_spec (StatusCode resp) 400) as [Hge | Hlt].
    + destruct (ParseErrorResponse_is_error json_Decode_ErrorResponse resp)
        as [e He]; [lia |].
      cbn [fst]. rewrite He. split.
      * split; [discriminate | intros [H | [H _]]; [contradiction | lia]].
      * intros e' Hlt. lia.
    + destruct (body_read_err (Body resp)) as [re|] eqn:Hre.
      * cbn [fst]. split.
        -- split; [discriminate |].
           intros [H | (_ & H & _)]; [contradiction | discriminate H].
        -- intros e _ [= <-]. eauto.
      * destruct (json_Unmarshal (body_data (Body resp)) x) as [x' [ue|]];
          cbn [fst snd]; split.
        -- split; [discriminate |].
           intros [H | (_ & _ & H)]; [contradiction | discriminate H].
        -- intros e _ [= <-]. eauto.
        -- split; [intros _; right; auto | reflexivity].
        -- intros e _ He. discriminate He.
Qed.



End DecoderMore.

(** ** Listing all pages *)

Section ListAllProps.

Context {T W : Type}.
Variable List : W -> Pagination -> W * fetch_result T.

Lemma ListAll_fetch_seq (n : nat) :
  forall (w : W) (page perPage : Z),
    1 <= page -> page + Z.of_nat n <= GoInt.MaxInt ->
    1 <= perPage <= 1000 ->
    fetch_seq (ListAll_fetch List) n w page perPage
      = List_seq List n w page perPage.
Proof.
  induction n as [| n IH]; intros w page perPage Hp Hn Hpp; [reflexivity |].
  cbn [fetch_seq List_seq]. unfold ListAll_fetch at 1.
  assert (Hq : WithPerPage (WithPage NewPagination page) perPage
               = mkPagination page perPage).
  { unfold WithPerPage, WithPage, MaxPerPage. cbn.
    destruct (Z.ltb_spec page 1); [lia |].
    destruct (Z.ltb_spec perPage 1); [lia |].
    destruct (Z.gtb_spec perPage 1000); [lia | reflexivity]. }
  rewrite Hq. destruct (List w (mkPagination page perPage)) as [w' res].
  f_equal.
  rewrite GoIntFacts.incr_small
    by (unfold GoInt.MinInt, GoInt.MaxInt in *; lia).
  apply IH; lia.
Qed.

(** X18.  [ListAll] walks the pages by calls of [List] at the cursors
    (1, s), (2, s), ... where the page size s is 100 for a requested size of
    0 or less, 1000 for one above 1000, and the requested size otherwise:
    what the walk over the answers of these calls gives is what [ListAll]
    returns. *)
Theorem ListAll_walks_List (n : nat) (perPage : Z) (w : W)
    (o : outcome (list T * option error)) :
  let s := if perPage <=? 0 then 100 else Z.min perPage 1000 in
  Z.of_nat n < GoInt.MaxInt ->
  walk_result (List_seq List n w 1 s) = Some o ->
  1 <= s <= 1000 /\
  exists m', ListAll List (S n) perPage w = Some (o, m').
Proof.
  intros s Hn Hw.
  assert (Hs : 1 <= s <= 1000).
  { unfold s. destruct (Z.leb_spec perPage 0); lia. }
  split; [exact Hs |].
  unfold ListAll. apply AllItems_of_walk.
  cbn [start iter world client NewPageIterator cursor pagination].
  assert (Hpp : PerPage (WithPerPage (WithPage NewPagination DefaultPage)
                           (if perPage <=? 0 then DefaultPerPage else perPage))
                = s).
  { unfold s, WithPerPage, DefaultPerPage, MaxPerPage. cbn.
    destruct (Z.leb_spec perPage 0); [reflexivity |].
    destruct (Z.ltb_spec perPage 1); [lia |].
    destruct (Z.gtb_spec perPage 1000); lia. }
  rewrite Hpp, ListAll_fetch_seq; unfold DefaultPage; try lia.
  exact Hw.
Qed.

End ListAllProps.

(** ** More on building a request *)

Section RequestMore.

Variable URL : Type.
Variable url_Parse : string -> result URL.
Variable url_ResolveReference : URL -> string -> URL.
Variable url_String : URL -> string.
Variable B : Type.
Variable json_Marshal : B -> result string.

(** X19.  Every error [NewRequest] returns is a [ClientError] around the
    failure that caused it, with one of three messages: the base URL did
    not parse, the body did not encode, or the request could not be made. *)
Theorem NewRequest_fails_with_ClientError method baseURL path (body : option B)
    apiKey userAgent (e : error) :
  NewRequest URL url_Parse url_ResolveReference url_String B json_Marshal
    method baseURL path body apiKey userAgent = Fail e ->
  exists message cause,
    e = ClientError message (Some cause) /\
    (message = "failed to parse base URL" /\ url_Parse baseURL = Fail cause
     \/ message = "failed to encode request body" /\
        carries_json method body /\
        (exists b, body = Some b /\ json_Marshal b = Fail cause)
     \/ message = "failed to create request").
Proof.
  unfold NewRequest.
  destruct (url_Parse baseURL) as [u0 | e0] eqn:Hu.
  2:{ intros [= <-]. eexists _, _. split; [reflexivity |].
      left. split; reflexivity. }
  destruct body as [b|].
  - destruct (sends_body B method (Some b)) eqn:Hs.
    + unfold json_Encode. destruct (json_Marshal b) as [s | e1] eqn:Hm.
      * destruct (http_NewRequest _ _ _ _ _) as [r | e2].
        -- destruct (negb (String.eqb apiKey "")),
             (negb (String.eqb userAgent "")); discriminate.
        -- intros [= <-]. eexists _, _. split; [reflexivity |].
           right. right. reflexivity.
      * intros [= <-]. eexists _, _. split; [reflexivity |].
        right. left. split; [reflexivity |].
        split; [apply sends_body_carries_json; exact Hs |].
        exists b. split; [reflexivity | exact Hm].
    + destruct (http_NewRequest _ _ _ _ _) as [r | e2].
      * destruct (negb (String.eqb apiKey "")),
          (negb (String.eqb userAgent "")); discriminate.
      * intros [= <-]. eexists _, _. split; [reflexivity |].
        right. right. reflexivity.
  - cbn [sends_body]. destruct (http_NewRequest _ _ _ _ _) as [r | e2].
    + destruct (negb (String.eqb apiKey "")),
        (negb (String.eqb userAgent "")); discriminate.
    + intros [= <-]. eexists _, _. split; [reflexivity |].
      right. right. reflexivity.
Qed.

(** X20.  A body given with a method other than POST, PUT and PATCH is
    dropped: it is not encoded, cannot make the call fail, and the result
    is the one of the same call without a body. *)
Theorem NewRequest_drops_body method baseURL path (b : B) apiKey userAgent :
  method <> "POST" -> method <> "PUT" -> method <> "PATCH" ->
  NewRequest URL url_Parse url_ResolveReference url_String B json_Marshal
    method baseURL path (Some b) apiKey userAgent
  = NewRequest URL url_Parse url_ResolveReference url_String B json_Marshal
      method baseURL path None apiKey userAgent.
Proof.
  intros H1 H2 H3. unfold NewRequest.
  assert (Hs : sends_body B method (Some b) = false).
  { unfold sends_body, MethodPost, MethodPut, MethodPatch.
    apply String.eqb_neq in H1, H2, H3. rewrite H1, H2, H3. reflexivity. }
  rewrite Hs. reflexivity.
Qed.

End RequestMore.

(** ** The client and its options *)

Lemma apply_option_apiKey (c : Client) (h : store) (o : ClientOption) :
  c_apiKey (fst (apply_option (c, h) o)) = c_apiKey c.
Proof.
  destruct o; cbn; try reflexivity.
  destruct (c_httpClient c); reflexivity.
Qed.

Lemma apply_options_apiKey (options : list ClientOption) :
  forall (c : Client) (h : store),
    c_apiKey (fst (foldl apply_option (c, h) options)) = c_apiKey c.
Proof.
  induction options as [| o options IH]; intros c h; [reflexivity |].
  cbn [foldl]. pose proof (apply_option_apiKey c h o) as Ho.
  destruct (apply_option (c, h) o) as [c1 h1]. rewrite IH. exact Ho.
Qed.

Lemma apply_options_keep_BaseURL (rest : list ClientOption) :
  forallb (fun o => negb (sets_BaseURL o)) rest = true ->
  forall (c : Client) (h : store),
    c_BaseURL (fst (foldl apply_option (c, h) rest)) = c_BaseURL c.
Proof.
  induction rest as [| o rest IH]; intros Hc c h; [reflexivity |].
  cbn [forallb] in Hc. apply andb_true_iff in Hc as [Ho Hc].
  cbn [foldl].
  assert (Hb : c_BaseURL (fst (apply_option (c, h) o)) = c_BaseURL c).
  { destruct o; cbn; try reflexivity; [discriminate Ho |].
    destruct (c_httpClient c); reflexivity. }
  destruct (apply_option (c, h) o) as [c1 h1]. rewrite (IH Hc). exact Hb.
Qed.

Lemma apply_options_keep_httpClient (rest : list ClientOption) :
  forallb (fun o => negb (sets_httpClient o)) rest = true ->
  forall (c : Client) (h : store),
    c_httpClient (fst (foldl apply_option (c, h) rest)) = c_httpClient c /\
    snd (foldl apply_option (c, h) rest) = h.
Proof.
  induction rest as [| o rest IH]; intros Hc c h; [split; reflexivity |].
  cbn [forallb] in Hc. apply andb_true_iff in Hc as [Ho Hc].
  cbn [foldl].
  assert (Hb : c_httpClient (fst (apply_option (c, h) o)) = c_httpClient c /\
               snd (apply_option (c, h) o) = h).
  { destruct o; cbn; try (split; reflexivity); discriminate Ho. }
  destruct (apply_option (c, h) o) as [c1 h1]. cbn [fst snd] in Hb.
  destruct Hb as [Hb1 ->]. destruct (IH Hc c1 h) as [H1 H2].
  rewrite H1, H2. split; [exact Hb1 | reflexivity].
Qed.

Lemma NewClient_fields (apiKey : string) (options : list ClientOption)
    (h : store) :
  let l0 := fresh (dom h) in
  let h0 := <[l0 := mk_http_Client DefaultTimeout]> h in
  let c0 := mkClient (Some l0) DefaultBaseURL apiKey DefaultUserAgent
              None None None None None in
  let ch := foldl apply_option (c0, h0) options in
  let c := fst (NewClient apiKey options h) in
  c_httpClient c = c_httpClient (fst ch) /\
  c_BaseURL c = c_BaseURL (fst ch) /\
  c_apiKey c = apiKey /\
  c_UserAgent c = c_UserAgent (fst ch) /\
  snd (NewClient apiKey options h) = snd ch /\
  Forall (fun s => s = Some (NewService (c_httpClient c) (c_BaseURL c)
                               (c_apiKey c) (c_UserAgent c)))
         (all_services c).
Proof.
  intros l0 h0 c0 ch c. unfold c, NewClient, new_object. cbn zeta.
  fold l0. fold h0. fold c0.
  pose proof (apply_options_apiKey options c0 h0) as Hk.
  fold ch in Hk |- *. destruct ch as [c1 h1]. cbn in Hk |- *.
  repeat split; try exact Hk.
  rewrite Hk. repeat constructor.
Qed.

Lemma last_after_head {A} (l : list A) :
  forall a d : A, List.last (a :: l) d = List.last l a.
Proof.
  induction l as [| b l IH]; intros a d; [reflexivity |].
  change (List.last (a :: b :: l) d) with (List.last (b :: l) d).
  rewrite !IH. reflexivity.
Qed.

(** X21.  On a client made by [NewClient], with whatever options,
    [SetAPIKey] never panics, and after any number of calls the client and
    all five services carry the key of the last call (the key given to
    [NewClient] when there was none); the HTTP client, the base URL and the
    user agent of the services stay the ones the client was made with. *)
Theorem SetAPIKeys_in_sync (apiKey : string) (options : list ClientOption)
    (h : store) (keys : list string) :
  let c0 := fst (NewClient apiKey options h) in
  exists c,
    SetAPIKeys c0 keys = Returns c /\
    c_apiKey c = List.last keys apiKey /\
    c_httpClient c = c_httpClient c0 /\
    c_BaseURL c = c_BaseURL c0 /\
    c_UserAgent c = c_UserAgent c0 /\
    Forall (fun s => s = Some (NewService (c_httpClient c0) (c_BaseURL c0)
                                 (List.last keys apiKey) (c_UserAgent c0)))
           (all_services c).
Proof.
  intros c0.
  destruct (NewClient_fields apiKey options h) as (_ & _ & Hk & _ & _ & Hs).
  fold c0 in Hk, Hs. rewrite Hk in Hs.
  assert (Hgen : forall keys c k,
             c_apiKey c = k ->
             Forall (fun s => s = Some (NewService (c_httpClient c)
                                          (c_BaseURL c) k (c_UserAgent c)))
                    (all_services c) ->
             exists c',
               SetAPIKeys c keys = Returns c' /\
               c_apiKey c' = List.last keys k /\
               c_httpClient c' = c_httpClient c /\
               c_BaseURL c' = c_BaseURL c /\
               c_UserAgent c' = c_UserAgent c /\
               Forall (fun s => s = Some (NewService (c_httpClient c)
                                            (c_BaseURL c) (List.last keys k)
                                            (c_UserAgent c)))
                      (all_services c')).
  { clear. induction keys as [| k1 keys IH]; intros c k Hk Hs.
    - exists c. cbn. repeat split; assumption.
    - unfold all_services in Hs.
      apply Forall_cons in Hs as [H1 Hs]. apply Forall_cons in Hs as [H2 Hs].
      apply Forall_cons in Hs as [H3 Hs]. apply Forall_cons in Hs as [H4 Hs].
      apply Forall_cons in Hs as [H5 _].
      cbn [SetAPIKeys]. unfold SetAPIKey. rewrite H1, H2, H3, H4, H5.
      match goal with |- context [SetAPIKeys ?c1 keys] => set (c' := c1) end.
      destruct (IH c' k1) as (c'' & HS & Hk' & Hh & Hb & Hu & Hs').
      + reflexivity.
      + unfold all_services, c'. cbn. repeat constructor.
      + exists c''. split; [exact HS |].
        assert (Hl : List.last (k1 :: keys) k = List.last keys k1)
          by apply last_after_head.
        rewrite Hl. repeat split; assumption. }
  exact (Hgen keys c0 apiKey Hk Hs).
Qed.

(** X22.  The last [WithBaseURL] among the options wins: the client and all
    five services get its base URL, whatever options come before it and
    whatever other options come after it. *)
Theorem NewClient_last_BaseURL (apiKey : string)
    (before rest : list ClientOption) (baseURL : string) (h : store) :
  forallb (fun o => negb (sets_BaseURL o)) rest = true ->
  let c := fst (NewClient apiKey (before ++ WithBaseURL baseURL :: rest) h) in
  c_BaseURL c = baseURL /\
  Forall (fun s => svc_baseURL <$> s = Some baseURL) (all_services c).
Proof.
  intros Hrest c.
  destruct (NewClient_fields apiKey (before ++ WithBaseURL baseURL :: rest) h)
    as (_ & Hb & _ & _ & _ & Hs).
  fold c in Hb, Hs.
  assert (Hbase : c_BaseURL c = baseURL).
  { rewrite Hb, foldl_app. cbn [foldl].
    destruct (foldl apply_option _ before) as [c1 h1].
    cbn [apply_option]. rewrite (apply_options_keep_BaseURL rest Hrest).
    reflexivity. }
  split; [exact Hbase |].
  eapply Forall_impl; [exact Hs |]. intros s ->. rewrite Hbase.
  reflexivity.
Qed.

(** X23.  The last [WithTimeout] wins when no [WithHTTPClient] comes after
    it: the client has an HTTP client, shared with all five services, whose
    timeout is the one given.  With no such option at all the HTTP client
    is a new object with the default timeout of 30 seconds, and the objects
    the store held before are as they were. *)
Theorem NewClient_timeout (apiKey : string) (h : store) :
  (forall (before rest : list ClientOption) (timeout : Z),
      forallb (fun o => negb (sets_httpClient o)) rest = true ->
      let ch := NewClient apiKey (before ++ WithTimeout timeout :: rest) h in
      exists l,
        c_httpClient (fst ch) = Some l /\
        snd ch !! l = Some (mk_http_Client timeout) /\
        Forall (fun s => svc_client <$> s = Some (Some l))
               (all_services (fst ch))) /\
  (forall options : list ClientOption,
      forallb (fun o => negb (sets_httpClient o)) options = true ->
      let ch := NewClient apiKey options h in
      exists l,
        c_httpClient (fst ch) = Some l /\
        h !! l = None /\
        snd ch !! l = Some (mk_http_Client (30 * 1000000000)) /\
        forall l', l' <> l -> snd ch !! l' = h !! l').
Proof.
  split.
  - intros before rest timeout Hrest ch.
    destruct (NewClient_fields apiKey (before ++ WithTimeout timeout :: rest) h)
      as (Hc & _ & _ & _ & Hh & Hs).
    fold ch in Hc, Hh, Hs.
    rewrite foldl_app in Hc, Hh. cbn [foldl] in Hc, Hh.
    destruct (foldl apply_option _ before) as [c1 h1].
    assert (Hstep : exists l,
               c_httpClient (fst (apply_option (c1, h1) (WithTimeout timeout)))
                 = Some l /\
               snd (apply_option (c1, h1) (WithTimeout timeout)) !! l
                 = Some (mk_http_Client timeout)).
    { cbn. destruct (c_httpClient c1) as [l|]; cbn;
        eexists; (split; [reflexivity | apply lookup_insert_eq]). }
    destruct Hstep as (l & Hl1 & Hl2).
    destruct (apply_option (c1, h1) (WithTimeout timeout)) as [c2 h2].
    destruct (apply_options_keep_httpClient rest Hrest c2 h2) as [Hk1 Hk2].
    rewrite Hk1 in Hc. rewrite Hk2 in Hh. cbn [fst snd] in Hl1, Hl2.
    assert (Hcl : c_httpClient (fst ch) = Some l) by (rewrite Hc; exact Hl1).
    exists l. split; [exact Hcl |].
    split; [rewrite Hh; exact Hl2 |].
    eapply Forall_impl; [exact Hs |]. intros s ->.
    rewrite Hcl. reflexivity.
  - intros options Hopts ch.
    destruct (NewClient_fields apiKey options h) as (Hc & _ & _ & _ & Hh & _).
    fold ch in Hc, Hh.
    match type of Hc with
    | _ = c_httpClient (fst (foldl apply_option (?c0, ?h0) options)) =>
        destruct (apply_options_keep_httpClient options Hopts c0 h0)
          as [Hk1 Hk2]
    end.
    rewrite Hk1 in Hc. rewrite Hk2 in Hh. cbn in Hc.
    exists (fresh (dom h)). split; [exact Hc |].
    split; [apply not_elem_of_dom, is_fresh |]. rewrite Hh.
    split; [apply lookup_insert_eq |].
    intros l' Hne. apply lookup_insert_ne. congruence.
Qed.

(** X24.  [WithTimeout] after [WithHTTPClient] writes into the client the
    caller handed in: when no other option in between or after sets the HTTP
    client, the client keeps the caller's object and that object's timeout
    is overwritten. *)
Theorem WithTimeout_writes_callers_client (apiKey : string)
    (before mid rest : list ClientOption) (l : nat) (timeout : Z) (h : store) :
  forallb (fun o => negb (sets_httpClient o)) mid = true ->
  forallb (fun o => negb (sets_httpClient o)) rest = true ->
  let ch :=
    NewClient apiKey
      (before ++ WithHTTPClient (Some l) :: mid ++ WithTimeout timeout :: rest)
      h in
  c_httpClient (fst ch) = Some l /\
  snd ch !! l = Some (mk_http_Client timeout).
Proof.
  intros Hmid Hrest ch.
  destruct (NewClient_fields apiKey
              (before ++ WithHTTPClient (Some l)
                 :: mid ++ WithTimeout timeout :: rest) h)
    as (Hc & _ & _ & _ & Hh & _).
  fold ch in Hc, Hh.
  rewrite foldl_app in Hc, Hh. cbn [foldl] in Hc, Hh.
  rewrite foldl_app in Hc, Hh. cbn [foldl] in Hc, Hh.
  destruct (foldl apply_option _ before) as [c1 h1].
  cbn [apply_option] in Hc, Hh.
  match type of Hc with
  | context [foldl apply_option (?c2, h1) mid] =>
      destruct (apply_options_keep_httpClient mid Hmid c2 h1) as [Hm1 Hm2];
      destruct (foldl apply_option (c2, h1) mid) as [c3 h3]
  end.
  cbn [fst snd] in Hm1, Hm2. subst h3. cbn in Hm1.
  cbn [apply_option] in Hc, Hh. rewrite Hm1 in Hc, Hh.
  match type of Hc with
  | context [foldl apply_option (?c4, ?h4) rest] =>
      destruct (apply_options_keep_httpClient rest Hrest c4 h4) as [Hr1 Hr2]
  end.
  rewrite Hr1 in Hc. rewrite Hr2 in Hh. cbn in Hc.
  split; [exact Hc |]. rewrite Hh. apply lookup_insert_eq.
Qed.

(** ** The further theorems on the data *)

Lemma Next_true_has_items_witness :
  fst (Next mock_start) = Returns true /\
  IterItems (snd (Next mock_start)) <> [] /\
  Error (snd (Next mock_start)) = None /\
  length (calls (snd (Next mock_start))) = S (length (calls mock_start)).
Proof.
  assert (H : fst (Next mock_start) = Returns true) by reflexivity.
  exact (conj H (Next_true_has_items mock_start H)).
Defined.


Lemma Next_stops_at_last_page_witness :
  IterPageInfo mock_at_end = Some (mkPageInfo 3 5 false) /\
  IsLastPage (mkPageInfo 3 5 false) = true /\
  Next_run 2 mock_at_end = replicate 2 (Returns false, mock_at_end).
Proof.
  assert (H1 : IterPageInfo mock_at_end = Some (mkPageInfo 3 5 false))
    by reflexivity.
  assert (H2 : IsLastPage (mkPageInfo 3 5 false) = true) by reflexivity.
  exact (conj H1 (conj H2
           (Next_stops_at_last_page mock_at_end _ 2 H1 H2))).
Defined.

Lemma AllItems_calls_witness :
  exists (k : nat) (new_calls : list (call mockItem)),
    (k <= 4)%nat /\
    calls (snd (default (Panics, mock_start) (AllItems 4 mock_start)))
      = calls mock_start ++ new_calls /\
    map call_page new_calls = map Z.of_nat (seq 1 k) /\
    Forall (fun cl : call mockItem =>
              call_perPage cl = PerPage (cursor mock_start)) new_calls /\
    map call_result new_calls
      = fetch_seq (client (iter mock_start)) k (world mock_start) 1
          (PerPage (cursor mock_start)).
Proof.
  refine (AllItems_calls mock_start 4
            (fst (default (Panics, mock_start) (AllItems 4 mock_start)))
            (snd (default (Panics, mock_start) (AllItems 4 mock_start)))
            _ _).
  - reflexivity.
  - unfold GoInt.MaxInt. lia.
Defined.

Lemma PageInfo_sentinels_witness :
  1 <= pi_CurrentPage (mkPageInfo 2 25 true) < GoInt.MaxInt /\
  (NextPage (mkPageInfo 2 25 true) = 0
   <-> IsLastPage (mkPageInfo 2 25 true) = true) /\
  (IsLastPage (mkPageInfo 2 25 true) = false ->
   NextPage (mkPageInfo 2 25 true) = pi_CurrentPage (mkPageInfo 2 25 true) + 1) /\
  (PreviousPage (mkPageInfo 2 25 true) = 0
   <-> IsFirstPage (mkPageInfo 2 25 true) = true) /\
  (IsFirstPage (mkPageInfo 2 25 true) = false ->
   PreviousPage (mkPageInfo 2 25 true)
     = pi_CurrentPage (mkPageInfo 2 25 true) - 1).
Proof.
  assert (H : 1 <= pi_CurrentPage (mkPageInfo 2 25 true) < GoInt.MaxInt).
  { unfold GoInt.MaxInt. cbn. lia. }
  exact (conj H (PageInfo_sentinels (mkPageInfo 2 25 true) H)).
Defined.

Lemma ToQueryParams_inj_witness :
  Pagination_ToQueryParams (Some (mkPagination 2 10))
    = Pagination_ToQueryParams (Some (WithPerPage (WithPage NewPagination 2) 10)) /\
  mkPagination 2 10 = WithPerPage (WithPage NewPagination 2) 10.
Proof.
  assert (H : Pagination_ToQueryParams (Some (mkPagination 2 10))
              = Pagination_ToQueryParams
                  (Some (WithPerPage (WithPage NewPagination 2) 10)))
    by reflexivity.
  split; [exact H |].
  apply (ToQueryParams_inj (mkPagination 2 10)
           (WithPerPage (WithPage NewPagination 2) 10));
    [cbn; lia | cbn; lia | cbn; lia | cbn; lia | exact H].
Defined.

Lemma entries_range_entries :
  forall (A : Type) (m : gmap string A), entries_range A m ≡ₚ map_to_list m.
Proof. intros A m. reflexivity. Defined.

Lemma AddQueryParams_adds_witness :
  exists q' : Values,
    AddQueryParams Values values_Query values_set_RawQuery values_Encode
      PurgeOptions PurgeOptions_Values entries_range search_request
      (ParamsRequest (Pagination_ToQueryParams (Some (mkPagination 2 10))))
      = (None, set_RawQuery Values values_set_RawQuery search_request
                 (values_Encode q')) /\
    q' !! "page" = Some ["2"] /\
    q' !! "perPage" = Some ["10"] /\
    q' !! "search" = Some ["test"].
Proof.
  destruct (AddQueryParams_adds Values values_Query values_set_RawQuery
              values_Encode PurgeOptions PurgeOptions_Values entries_range
              entries_range_entries search_request
              (Pagination_ToQueryParams (Some (mkPagination 2 10))))
    as (q' & Heq & Hin & Hout & _).
  exists q'. split; [exact Heq |].
  split; [exact (Hin "page" "2" eq_refl) |].
  split; [exact (Hin "perPage" "10" eq_refl) |].
  exact (Hout "search" eq_refl).
Defined.

Lemma AddQueryParams_nothing_to_add_witness :
  AddQueryParams Values values_Query values_set_RawQuery values_Encode
    PurgeOptions PurgeOptions_Values entries_range search_request ParamsNil
    = (None, search_request) /\
  AddQueryParams Values values_Query values_set_RawQuery values_Encode
    PurgeOptions PurgeOptions_Values entries_range search_request
    (ParamsRequest (Pagination_ToQueryParams None))
    = (None, set_RawQuery Values values_set_RawQuery search_request
               (values_Encode (values_Query (req_URL search_request)))) /\
  AddQueryParams Values values_Query values_set_RawQuery values_Encode
    PurgeOptions PurgeOptions_Values entries_range search_request
    (ParamsRequest (Pagination_ToQueryParams (Some (mkPagination 0 0))))
    = (None, set_RawQuery Values values_set_RawQuery search_request
               (values_Encode (values_Query (req_URL search_request)))).
Proof.
  exact (AddQueryParams_nothing_to_add Values values_Query values_set_RawQuery
           values_Encode PurgeOptions PurgeOptions_Values entries_range
           entries_range_entries search_request).
Defined.

Lemma AddQueryParams_struct_witness :
  exists q' : Values,
    AddQueryParams Values values_Query values_set_RawQuery values_Encode
      PurgeOptions PurgeOptions_Values entries_range search_request
      (ParamsStruct (mkPurgeOptions "https://example.com/a.png" true))
      = (None, set_RawQuery Values values_set_RawQuery search_request
                 (values_Encode q')) /\
    q' !! "url" = Some ["https://example.com/a.png"] /\
    q' !! "async" = Some ["true"] /\
    q' !! "search" = Some ["test"].
Proof.
  pose proof (AddQueryParams_struct Values values_Query values_set_RawQuery
                values_Encode PurgeOptions PurgeOptions_Values entries_range
                entries_range_entries search_request
                (mkPurgeOptions "https://example.com/a.png" true)) as H.
  cbn [PurgeOptions_Values po_Async po_URL] in H.
  destruct H as (q' & Heq & Hk).
  exists q'. split; [exact Heq |].
  split; [exact (Hk "url") |]. split; [exact (Hk "async") |].
  exact (Hk "search").
Defined.

Lemma ListAll_walks_List_witness :
  Z.of_nat 3 < GoInt.MaxInt /\
  walk_result (List_seq mock_List 3 tt 1 2)
    = Some (Returns (remote_collection mockPages, None)) /\
  1 <= 2 <= 1000 /\
  exists m',
    ListAll mock_List 4 2 tt
      = Some (Returns (remote_collection mockPages, None), m').
Proof.
  assert (H1 : Z.of_nat 3 < GoInt.MaxInt) by (unfold GoInt.MaxInt; lia).
  assert (H2 : walk_result (List_seq mock_List 3 tt 1 2)
               = Some (Returns (remote_collection mockPages, None)))
    by reflexivity.
  exact (conj H1 (conj H2 (ListAll_walks_List mock_List 3 2 tt _ H1 H2))).
Defined.

Lemma NewRequest_fails_with_ClientError_witness :
  NewRequest string text_Parse text_ResolveReference text_String
    string text_Marshal
    "BAD METHOD" "https://api.bunny.net" "/country" None "key" "agent"
    = Fail (ClientError "failed to create request"
              (Some (LibraryError "net/http" "invalid method"))) /\
  exists message cause,
    ClientError "failed to create request"
      (Some (LibraryError "net/http" "invalid method"))
      = ClientError message (Some cause) /\
    (message = "failed to parse base URL" /\
     text_Parse "https://api.bunny.net" = Fail cause
     \/ message = "failed to encode request body" /\
        carries_json "BAD METHOD" (None : option string) /\
        (exists b, (None : option string) = Some b /\ text_Marshal b = Fail cause)
     \/ message = "failed to create request").
Proof.
  assert (H : NewRequest string text_Parse text_ResolveReference text_String
                string text_Marshal
                "BAD METHOD" "https://api.bunny.net" "/country" None
                "key" "agent"
              = Fail (ClientError "failed to create request"
                        (Some (LibraryError "net/http" "invalid method"))))
    by reflexivity.
  exact (conj H (NewRequest_fails_with_ClientError string text_Parse
                   text_ResolveReference text_String string text_Marshal
                   _ _ _ _ _ _ _ H)).
Defined.

Lemma NewRequest_drops_body_witness :
  NewRequest string text_Parse text_ResolveReference text_String
    string text_Marshal
    "GET" "https://api.bunny.net" "/country" (Some "{}") "key" "agent"
  = NewRequest string text_Parse text_ResolveReference text_String
      string text_Marshal
      "GET" "https://api.bunny.net" "/country" None "key" "agent".
Proof.
  apply (NewRequest_drops_body string text_Parse text_ResolveReference
           text_String string text_Marshal); discriminate.
Defined.

Lemma NewClient_last_BaseURL_witness :
  let c := fst (NewClient "test-api-key"
                  ([WithBaseURL "https://first.example"]
                     ++ WithBaseURL "https://custom-api.bunny.net"
                     :: [WithUserAgent "custom-agent/1.0";
                         WithTimeout (60 * Second)])
                  ∅) in
  c_BaseURL c = "https://custom-api.bunny.net" /\
  Forall (fun s => svc_baseURL <$> s = Some "https://custom-api.bunny.net")
         (all_services c).
Proof.
  apply (NewClient_last_BaseURL "test-api-key"
           [WithBaseURL "https://first.example"]
           [WithUserAgent "custom-agent/1.0"; WithTimeout (60 * Second)]
           "https://custom-api.bunny.net" ∅).
  reflexivity.
Defined.

Lemma WithTimeout_writes_callers_client_witness :
  let h : store := <[7%nat := mk_http_Client 5]> ∅ in
  let ch := NewClient "test-api-key"
              ([] ++ WithHTTPClient (Some 7%nat)
                 :: [WithBaseURL "https://custom-api.bunny.net"]
                 ++ WithTimeout (60 * Second) :: [])
              h in
  c_httpClient (fst ch) = Some 7%nat /\
  snd ch !! 7%nat = Some (mk_http_Client (60 * Second)).
Proof.
  apply (WithTimeout_writes_callers_client "test-api-key" []
           [WithBaseURL "https://custom-api.bunny.net"] []
           7%nat (60 * Second) (<[7%nat := mk_http_Client 5]> ∅));
    reflexivity.
Defined.

(** ** Starting over, and the errors of the paginated decoder *)

(** X25.  [Reset] re-arms the iterator in whatever state it is, failed or
    at its last page: the next [Next] calls the fetch function once, for
    page 1 at the page size of the iterator. *)
Theorem Reset_then_Next_fetches {T W} (m : machine T W) :
  exists res : fetch_result T,
    calls (snd (Next (Reset m)))
      = calls m ++ [mkCall 1 (PerPage (cursor m)) res] /\
    snd (client (iter m) (world m) 1 (PerPage (cursor m))) = res.
Proof.
  destruct (Next_fetch_step (Reset m) (Reset_non_terminal m))
    as (w' & res & Hc & _ & Hcalls & _).
  exists res. split; [exact Hcalls |].
  change (client (iter (Reset m))) with (client (iter m)) in Hc.
  change (world (Reset m)) with (world m) in Hc.
  change (Page (cursor (Reset m))) with 1 in Hc.
  change (PerPage (cursor (Reset m))) with (PerPage (cursor m)) in Hc.
  rewrite Hc. reflexivity.
Qed.

(** X26.  [ParsePaginatedResponse] returns a nil error exactly when the body
    reads and decodes; every error it returns is a [ClientError] around the
    failure of the read or of the decoding, and when the read fails the
    target is left as it was. *)
Theorem ParsePaginatedResponse_errors (V : Type)
    (json_Unmarshal : string -> V -> V * option error)
    (resp : Response) (x : V) :
  (fst (ParsePaginatedResponse V json_Unmarshal resp x) = None
   <-> body_read_err (Body resp) = None /\
       snd (json_Unmarshal (body_data (Body resp)) x) = None) /\
  (forall e,
     fst (ParsePaginatedResponse V json_Unmarshal resp x) = Some e ->
     exists message cause,
       e = ClientError message (Some cause) /\
       (body_read_err (Body resp) = Some cause
        \/ body_read_err (Body resp) = None /\
           snd (json_Unmarshal (body_data (Body resp)) x) = Some cause)) /\
  (body_read_err (Body resp) <> None ->
   snd (ParsePaginatedResponse V json_Unmarshal resp x) = x).
Proof.
  unfold ParsePaginatedResponse, io_ReadAll.
  destruct (body_read_err (Body resp)) as [re|].
  - cbn [fst snd]. split; [| split].
    + split; [discriminate | intros [H _]; discriminate H].
    + intros e [= <-]. eexists _, _. split; [reflexivity | left; reflexivity].
    + reflexivity.
  - destruct (json_Unmarshal (body_data (Body resp)) x) as [x' [ue|]];
      cbn [fst snd]; (split; [| split]).
    + split; [discriminate | intros [_ H]; discriminate H].
    + intros e [= <-]. eexists _, _. split; [reflexivity |].
      right. split; reflexivity.
    + intros H. contradiction.
    + split; [auto | reflexivity].
    + intros e H. discriminate H.
    + intros H. contradiction.
Qed.
